(** * alx-backend-storage, 0x02-redis_basic: [exercise.py] and [web.py]

    A shallow embedding of the two modules of the repository and of the
    part of their environment they talk to (a Redis server, the Python
    built-ins [int], [str], [bytes.decode], [uuid.uuid4], [print] and
    [requests.get]), followed by the properties of the specification.

    - [Py]: exceptions, outcomes, the monad of effectful code, UTF-8 and
      integer text.
    - [Redis]: the server and the seven commands the code issues.
    - [Exercise]: [count_calls], [call_history] and the class [Cache].
    - [Web]: [count_url_access], [cache_page] and [get_page].
    - [Scenario]: concrete worlds.
    - [PyFacts], [RedisFacts], [ExerciseFacts], [WebFacts], [CacheFacts],
      [PageFacts]: the proofs.

    Conventions.
    - Python [bytes] are [string]s (sequences of 8-bit characters).
    - A Python [str] is held as its UTF-8 encoding, the form in which
      redis-py transmits it; [str.encode('utf-8')] is then the identity
      and [bytes.decode('utf-8')] is a validity check.
    - A Python [int] is an integer of any size.  The interpreter is
      CPython with its default limit on conversions between [int] and
      decimal text: [str], [repr] and [int] raise [ValueError] past
      4300 digits.
    - The server is Redis 7: integers are signed 64-bit, the clock is in
      milliseconds.
    - Python code that touches the server, the terminal or the network is
      a computation [M W A]: it maps a world [W] to an outcome (a value or
      a raised exception) and the world it leaves behind.  A raised
      exception keeps the effects performed before it. *)

From Stdlib Require Import ZArith NArith String Ascii Lia.
From Stdlib Require Import DecimalString DecimalPos DecimalN DecimalZ DecimalFacts.
From Stdlib Require Import SpecFloat.
From stdpp Require Import gmap strings list fin_maps.

Open Scope string_scope.
Open Scope Z_scope.

(** ** The interpreter: exceptions, outcomes, computations *)

Module Py.

(** The exceptions that can cross the code of the repository. *)
Inductive redis_error :=
| WRONGTYPE        (* operation against a key holding the wrong kind of value *)
| NotAnInteger     (* value is not an integer or out of range *)
| WouldOverflow    (* increment or decrement would overflow *)
| InvalidExpire.   (* invalid expire time in 'setex' command *)

Inductive exn :=
| ResponseError (e : redis_error)   (* redis.exceptions.ResponseError *)
| DataError                         (* redis.exceptions.DataError *)
| ValueError
| TypeError
| UnicodeDecodeError
| RequestException (what : string). (* requests.exceptions.* *)

Inductive result (A : Type) :=
| Ok (a : A)
| Raise (e : exn).
Arguments Ok {A} a.
Arguments Raise {A} e.

Definition M (W A : Type) : Type := W -> result A * W.

Definition ret {W A} (a : A) : M W A := fun w => (Ok a, w).
Definition raise {W A} (e : exn) : M W A := fun w => (Raise e, w).
Definition bind {W A B} (m : M W A) (k : A -> M W B) : M W B :=
  fun w => match m w with
           | (Ok a, w') => k a w'
           | (Raise e, w') => (Raise e, w')
           end.
Definition lift {W A} (r : result A) : M W A := fun w => (r, w).

(** [for x in xs: body(x)] *)
Fixpoint for_each {W A} (xs : list A) (body : A -> M W unit) : M W unit :=
  match xs with
  | [] => ret tt
  | x :: xs' => bind (body x) (fun _ => for_each xs' body)
  end.

(** *** UTF-8 *)

Definition byte_in (lo hi : N) (a : ascii) : bool :=
  ((lo <=? N_of_ascii a) && (N_of_ascii a <=? hi))%N.

Definition cont (a : ascii) : bool := byte_in 0x80 0xBF a.

(** Second byte of a three-byte sequence, by lead byte (no overlong
    forms, no surrogates). *)
Definition second3 (b0 b1 : ascii) : bool :=
  if byte_in 0xE0 0xE0 b0 then byte_in 0xA0 0xBF b1
  else if byte_in 0xED 0xED b0 then byte_in 0x80 0x9F b1
  else byte_in 0xE1 0xEF b0 && cont b1.

(** Second byte of a four-byte sequence (no overlong forms, nothing
    above U+10FFFF). *)
Definition second4 (b0 b1 : ascii) : bool :=
  if byte_in 0xF0 0xF0 b0 then byte_in 0x90 0xBF b1
  else if byte_in 0xF4 0xF4 b0 then byte_in 0x80 0x8F b1
  else byte_in 0xF1 0xF3 b0 && cont b1.

Fixpoint utf8_valid (s : string) : bool :=
  match s with
  | "" => true
  | String b0 s1 =>
      if byte_in 0x00 0x7F b0 then utf8_valid s1
      else match s1 with
           | "" => false
           | String b1 s2 =>
               if byte_in 0xC2 0xDF b0 then cont b1 && utf8_valid s2
               else match s2 with
                    | "" => false
                    | String b2 s3 =>
                        if byte_in 0xE0 0xEF b0
                        then second3 b0 b1 && cont b2 && utf8_valid s3
                        else match s3 with
                             | "" => false
                             | String b3 s4 =>
                                 second4 b0 b1 && cont b2 && cont b3
                                 && utf8_valid s4
                             end
                    end
           end
  end.

Fixpoint ascii_only (s : string) : bool :=
  match s with
  | "" => true
  | String a s' => byte_in 0x00 0x7F a && ascii_only s'
  end.

(** [b.decode('utf-8')] *)
Definition decode_utf8 (b : string) : result string :=
  if utf8_valid b then Ok b else Raise UnicodeDecodeError.

(** *** Integers as text *)

(** The decimal numeral of an integer: the text [str(n)] and [repr(n)]
    return when they return. *)
Definition numeral (z : Z) : string := NilZero.string_of_int (Z.to_int z).

(** [sys.get_int_max_str_digits()], at its default.  A conversion between
    an [int] and decimal text with more digits than this raises
    [ValueError], in either direction. *)
Definition max_str_digits : Z := 4300.

(** The number of decimal digits of an integer, its sign left out. *)
Definition decimal_digits (z : Z) : Z :=
  Z.of_nat (String.length (numeral (Z.abs z))).

(** [str(n)] and [repr(n)] for [n : int]. *)
Definition str_int (z : Z) : result string :=
  if decimal_digits z <=? max_str_digits then Ok (numeral z) else Raise ValueError.

Definition is_space (a : ascii) : bool :=
  byte_in 9 13 a || byte_in 32 32 a.
Definition is_digit (a : ascii) : bool := byte_in 48 57 a.
Definition is_underscore (a : ascii) : bool := byte_in 95 95 a.

Fixpoint lstrip (s : string) : string :=
  match s with
  | "" => ""
  | String a s' => if is_space a then lstrip s' else s
  end.

Definition rstrip (s : string) : string := String.rev (lstrip (String.rev s)).

(** Digits with single underscores between them; [prev] tells whether the
    previous character was a digit. *)
Fixpoint digits_ok (prev : bool) (s : string) : bool :=
  match s with
  | "" => prev
  | String a s' =>
      if is_digit a then digits_ok true s'
      else if is_underscore a then prev && digits_ok false s'
      else false
  end.

Fixpoint all_digits (s : string) : bool :=
  match s with
  | "" => true
  | String a s' => is_digit a && all_digits s'
  end.

Fixpoint drop_underscores (s : string) : string :=
  match s with
  | "" => ""
  | String a s' =>
      if is_underscore a then drop_underscores s'
      else String a (drop_underscores s')
  end.

(** The digits of [int(b)], once white space and sign are off: leading
    zeros count towards the limit, underscores do not. *)
Definition magnitude (body : string) : option Z :=
  if digits_ok false body
     && (Z.of_nat (String.length (drop_underscores body)) <=? max_str_digits)
  then (fun d => Z.of_N (N.of_uint d)) <$> NilEmpty.uint_of_string (drop_underscores body)
  else None.

(** The grammar of [int(b)] on bytes in base 10: optional white space, an
    optional sign, digits, optional white space; [None] where [int]
    raises [ValueError]. *)
Definition parse_int (b : string) : option Z :=
  match rstrip (lstrip b) with
  | "" => None
  | String a body =>
      if (a =? "+")%char then magnitude body
      else if (a =? "-")%char then Z.opp <$> magnitude body
      else magnitude (String a body)
  end.

(** [int(b)] for [b : bytes]. *)
Definition int_of_bytes (b : string) : result Z :=
  match parse_int b with
  | Some z => Ok z
  | None => Raise ValueError
  end.

End Py.

Export Py.

Notation "x <- m ;; k" := (bind m (fun x => k))
  (at level 20, m at level 99, k at level 200, only parsing).

(** ** The Redis server

    The commands the repository issues, on a server holding strings and
    lists with optional expiry.  The clock is in milliseconds.  The
    append-only file [aof] records, oldest first, the write commands the
    server applied. *)

Module Redis.

Inductive value :=
| RString (b : string)
| RList (l : list string).

Record entry := Entry { val : value; expire_at : option Z }.

Inductive write :=
| SET (k v : string)
| SETEX (k : string) (seconds : Z) (v : string)
| INCR (k : string)
| RPUSH (k v : string)
| FLUSHDB.

Record server := Server {
  db : gmap string entry;
  now : Z;
  aof : list write
}.

Definition LLONG_MAX : Z := 2 ^ 63 - 1.
Definition LLONG_MIN : Z := - 2 ^ 63.

(** A key has expired once the clock is past its expiry time. *)
Definition expired (t : Z) (e : entry) : bool :=
  match expire_at e with
  | Some at_ms => at_ms <? t
  | None => false
  end.

(** What a command sees under a key: expired entries are gone. *)
Definition lookup_key (k : string) (s : server) : option entry :=
  match db s !! k with
  | Some e => if expired (now s) e then None else Some e
  | None => None
  end.

Definition applied (k : string) (e : entry) (c : write) (s : server) : server :=
  Server (<[k := e]> (db s)) (now s) (aof s ++ [c]).

(** [ll2string] and [string2ll]: the canonical decimal form of a signed
    64-bit integer, and nothing else. *)
Definition ll2string (z : Z) : string := NilZero.string_of_int (Z.to_int z).

Definition string2ll (b : string) : option Z :=
  match NilZero.int_of_string b with
  | Some d =>
      let z := Z.of_int d in
      if decide (ll2string z = b) then
        if (LLONG_MIN <=? z) && (z <=? LLONG_MAX) then Some z else None
      else None
  | None => None
  end.

Definition get (k : string) : M server (option string) := fun s =>
  match lookup_key k s with
  | None => (Ok None, s)
  | Some (Entry (RString b) _) => (Ok (Some b), s)
  | Some (Entry (RList _) _) => (Raise (ResponseError WRONGTYPE), s)
  end.

Definition set (k v : string) : M server unit := fun s =>
  (Ok tt, applied k (Entry (RString v) None) (SET k v) s).

(** The clock as a command reads it.  The server keeps time in a
    [long long] of microseconds, so the milliseconds it reads never
    exceed [LLONG_MAX / 1000]. *)
Definition mstime (s : server) : Z := Z.min (now s) (LLONG_MAX / 1000).

(** [SETEX key seconds value], with [seconds] as it arrives on the wire.
    The server reads it as a signed 64-bit integer, refuses one that is
    not positive or whose milliseconds do not fit, and refuses a
    deadline that does not fit either. *)
Definition setex (k : string) (seconds : string) (v : string) : M server unit := fun s =>
  match string2ll seconds with
  | None => (Raise (ResponseError NotAnInteger), s)
  | Some secs =>
      if (secs <=? 0) || (LLONG_MAX / 1000 <? secs)
      then (Raise (ResponseError InvalidExpire), s)
      else if LLONG_MAX <? mstime s + 1000 * secs
      then (Raise (ResponseError InvalidExpire), s)
      else (Ok tt, applied k (Entry (RString v) (Some (now s + 1000 * secs)))
                           (SETEX k secs v) s)
  end.

Definition incr (k : string) : M server Z := fun s =>
  match lookup_key k s with
  | None => (Ok 1, applied k (Entry (RString (ll2string 1)) None) (INCR k) s)
  | Some (Entry (RString b) ex) =>
      match string2ll b with
      | None => (Raise (ResponseError NotAnInteger), s)
      | Some z =>
          if LLONG_MAX <=? z then (Raise (ResponseError WouldOverflow), s)
          else (Ok (z + 1),
                applied k (Entry (RString (ll2string (z + 1))) ex) (INCR k) s)
      end
  | Some (Entry (RList _) _) => (Raise (ResponseError WRONGTYPE), s)
  end.

Definition rpush (k v : string) : M server Z := fun s =>
  match lookup_key k s with
  | None => (Ok 1, applied k (Entry (RList [v]) None) (RPUSH k v) s)
  | Some (Entry (RList l) ex) =>
      (Ok (Z.of_nat (length l) + 1),
       applied k (Entry (RList (l ++ [v])) ex) (RPUSH k v) s)
  | Some (Entry (RString _) _) => (Raise (ResponseError WRONGTYPE), s)
  end.

(** The elements from [start] to [stop], both inclusive; negative
    indices count from the end. *)
Definition slice (l : list string) (start stop : Z) : list string :=
  let llen := Z.of_nat (length l) in
  let start := if start <? 0 then llen + start else start in
  let stop := if stop <? 0 then llen + stop else stop in
  let start := if start <? 0 then 0 else start in
  if (stop <? start) || (llen <=? start) then []
  else
    let stop := if llen <=? stop then llen - 1 else stop in
    take (Z.to_nat (stop - start + 1)) (drop (Z.to_nat start) l).

Definition lrange (k : string) (start stop : Z) : M server (list string) := fun s =>
  match lookup_key k s with
  | None => (Ok [], s)
  | Some (Entry (RList l) _) => (Ok (slice l start stop), s)
  | Some (Entry (RString _) _) => (Raise (ResponseError WRONGTYPE), s)
  end.

Definition flushdb : M server unit := fun s =>
  (Ok tt, Server ∅ (now s) (aof s ++ [FLUSHDB])).

(** Time passing between two commands. *)
Definition elapse (ms : N) (s : server) : server :=
  Server (db s) (now s + Z.of_N ms) (aof s).

Definition fresh (t : Z) : server := Server ∅ t [].

(** *** Reading a server state

    The integer [INCR] would start from, and the list [RPUSH] would
    extend; [None] where the command would be refused. *)
Definition counter (k : string) (s : server) : option Z :=
  match lookup_key k s with
  | None => Some 0
  | Some (Entry (RString b) _) => string2ll b
  | Some (Entry (RList _) _) => None
  end.

Definition elements (k : string) (s : server) : option (list string) :=
  match lookup_key k s with
  | None => Some []
  | Some (Entry (RList l) _) => Some l
  | Some (Entry (RString _) _) => None
  end.

(** [s'] is [s] after the one write [c], which touched key [k] only. *)
Definition wrote (k : string) (c : write) (s s' : server) : Prop :=
  now s' = now s /\ aof s' = (aof s ++ [c])%list /\
  forall k', k' <> k -> db s' !! k' = db s !! k'.

End Redis.

(** ** exercise.py *)

Module Exercise.

(** The values that reach [Cache]: the four shapes of the annotation of
    [store], and [None]. *)
Inductive pyobj :=
| PyNone
| PyStr (s : string)
| PyBytes (b : string)
| PyInt (z : Z)
| PyFloat (x : spec_float).

(** [uuid.UUID(bytes=b, version=4)] on the integer read from 16 random
    bytes: the variant and version bits are forced. *)
Definition uuid4_int (random : N) : N :=
  let i := (random mod 2 ^ 128)%N in
  let i := N.ldiff i (N.shiftl 0xc000 48) in
  let i := N.lor i (N.shiftl 0x8000 48) in
  let i := N.ldiff i (N.shiftl 0xf000 64) in
  N.lor i (N.shiftl 4 76).

Definition hexdigit (n : N) : ascii :=
  match String.get (N.to_nat n) "0123456789abcdef" with
  | Some c => c
  | None => "0"%char
  end.

(** ['%0<width>x' % n], for [n] below [16 ^ width]. *)
Fixpoint hex (width : nat) (n : N) (acc : string) : string :=
  match width with
  | O => acc
  | S width' => hex width' (n / 16)%N (String (hexdigit (n mod 16)%N) acc)
  end.

(** [str(u)] for a UUID: the 32 hexadecimal digits in groups of 8, 4, 4,
    4 and 12. *)
Definition uuid_str (i : N) : string :=
  let field (shift : N) (digits : nat) :=
    hex digits (N.land (N.shiftr i shift) (N.ones (4 * N.of_nat digits))) "" in
  field 96%N 8%nat +:+ "-" +:+ field 80%N 4%nat +:+ "-" +:+ field 64%N 4%nat
    +:+ "-" +:+ field 48%N 4%nat +:+ "-" +:+ field 0%N 12%nat.

(** [repr(b)] for [b : bytes]. *)
Fixpoint contains (c : ascii) (s : string) : bool :=
  match s with
  | "" => false
  | String a s' => (a =? c)%char || contains c s'
  end.

Definition escape (quote c : ascii) : string :=
  if (c =? quote)%char || (c =? "\")%char then String "\" (String c "")
  else if byte_in 9 9 c then "\t"
  else if byte_in 10 10 c then "\n"
  else if byte_in 13 13 c then "\r"
  else if byte_in 32 126 c then String c ""
  else "\x" +:+ String (hexdigit (N_of_ascii c / 16)%N)
                      (String (hexdigit (N_of_ascii c mod 16)%N) "").

Fixpoint escaped (quote : ascii) (s : string) : string :=
  match s with
  | "" => ""
  | String c s' => escape quote c +:+ escaped quote s'
  end.

Definition dquote : ascii := ascii_of_N 34.

Definition quoted (s : string) : string :=
  let quote : ascii :=
    if contains "'" s && negb (contains dquote s) then dquote else "'"%char in
  String quote (escaped quote s) +:+ String quote "".

Definition bytes_repr (b : string) : string := "b" +:+ quoted b.

Record world := World {
  redis : Redis.server;     (* the server on localhost:6379 *)
  urandom : nat -> N;       (* os.urandom(16), draw by draw *)
  drawn : nat;
  stdout : list string      (* printed lines, oldest first *)
}.

(** A command sent over a connection, [self._redis] or any other: they all
    reach the same server. *)
Definition on_redis {A} (c : M Redis.server A) : M world A := fun w =>
  let (r, s) := c (redis w) in
  (r, World s (urandom w) (drawn w) (stdout w)).

Definition print (line : string) : M world unit := fun w =>
  (Ok tt, World (redis w) (urandom w) (drawn w) (stdout w ++ [line])).

(** [str(uuid.uuid4())] *)
Definition uuid4 : M world string := fun w =>
  (Ok (uuid_str (uuid4_int (urandom w (drawn w)))),
   World (redis w) (urandom w) (S (drawn w)) (stdout w)).

(** A function object: its [__qualname__] and what calling it with
    [*args, **kwargs] does ([self] is the connection to the one server). *)
Record pyfunc := Func {
  qualname : string;
  call : list pyobj -> list (string * pyobj) -> M world pyobj
}.

Section Interpreter.

(** [repr] of a [str] and of a [float], as the interpreter computes
    them. *)
Variable str_repr : string -> string.
Variable float_repr : spec_float -> string.

(** The text of [repr(v)] and of [str(v)], where they return. *)
Definition repr_text (v : pyobj) : string :=
  match v with
  | PyNone => "None"
  | PyStr s => str_repr s
  | PyBytes b => bytes_repr b
  | PyInt z => numeral z
  | PyFloat x => float_repr x
  end.

Definition str_text (v : pyobj) : string :=
  match v with
  | PyStr s => s
  | _ => repr_text v
  end.

(** The values [repr] and [str] return on: all but an [int] with more
    digits than the interpreter converts. *)
Definition printable (v : pyobj) : bool :=
  match v with
  | PyInt z => decimal_digits z <=? max_str_digits
  | _ => true
  end.

(** [str(v)] *)
Definition str (v : pyobj) : result string :=
  if printable v then Ok (str_text v) else Raise ValueError.

Fixpoint comma_separated (l : list string) : string :=
  match l with
  | [] => ""
  | [x] => x
  | x :: l' => x +:+ ", " +:+ comma_separated l'
  end.

(** The text of [str(args)] for the tuple [args], where it returns. *)
Definition tuple_text (args : list pyobj) : string :=
  match args with
  | [] => "()"
  | [x] => "(" +:+ repr_text x +:+ ",)"
  | _ => "(" +:+ comma_separated (map repr_text args) +:+ ")"
  end.

(** [str(args)]: the [repr] of every element, or the [ValueError] of one
    of them. *)
Definition str_tuple (args : list pyobj) : result string :=
  if forallb printable args then Ok (tuple_text args) else Raise ValueError.

(** What redis-py puts on the wire for a value: bytes as they are, a
    [str] encoded, [repr(value)] encoded for an [int] or a [float]. *)
Definition encode (v : pyobj) : result string :=
  match v with
  | PyBytes b => Ok b
  | PyInt z => str_int z
  | PyFloat x => Ok (float_repr x)
  | PyStr s => Ok s
  | PyNone => Raise DataError
  end.

Definition count_calls (method : pyfunc) : pyfunc :=
  Func (qualname method) (fun args kwargs =>
    let key := qualname method in
    _ <- on_redis (Redis.incr key) ;;
    call method args kwargs).

Definition call_history (method : pyfunc) : pyfunc :=
  Func (qualname method) (fun args kwargs =>
    let input_key := qualname method +:+ ":inputs" in
    let output_key := qualname method +:+ ":outputs" in
    input <- lift (str_tuple args) ;;
    _ <- on_redis (Redis.rpush input_key input) ;;
    output <- call method args kwargs ;;
    text <- lift (str output) ;;
    _ <- on_redis (Redis.rpush output_key text) ;;
    ret output).

(** [Cache.__init__] *)
Definition init : M world unit := on_redis Redis.flushdb.

(** Binding [*args, **kwargs] to the one parameter [data] of [store]. *)
Definition bind_data (args : list pyobj) (kwargs : list (string * pyobj))
  : result pyobj :=
  match args, kwargs with
  | [data], [] => Ok data
  | [], [(name, data)] => if decide (name = "data") then Ok data else Raise TypeError
  | _, _ => Raise TypeError
  end.

(** The body of [store], before decoration. *)
Definition store_body : pyfunc :=
  Func "Cache.store" (fun args kwargs =>
    data <- lift (bind_data args kwargs) ;;
    key <- uuid4 ;;
    value <- lift (encode data) ;;
    _ <- on_redis (Redis.set key value) ;;
    ret (PyStr key)).

Definition store : pyfunc := call_history (count_calls store_body).

Definition get (key : string) (fn : option (string -> M world pyobj))
  : M world pyobj :=
  data <- on_redis (Redis.get key) ;;
  match data with
  | None => ret PyNone
  | Some b =>
      match fn with
      | Some f => f b
      | None => ret (PyBytes b)
      end
  end.

Definition get_str (key : string) : M world pyobj :=
  get key (Some (fun d => s <- lift (decode_utf8 d) ;; ret (PyStr s))).

Definition get_int (key : string) : M world pyobj :=
  get key (Some (fun d => z <- lift (int_of_bytes d) ;; ret (PyInt z))).

(** [int(call_count or 0)] *)
Definition int_or_0 (call_count : option string) : result Z :=
  match call_count with
  | None => Ok 0
  | Some b => if decide (b = "") then Ok 0 else int_of_bytes b
  end.

Definition replay (method : pyfunc) : M world unit :=
  let qualname := qualname method in
  call_count <- on_redis (Redis.get qualname) ;;
  n <- lift (int_or_0 call_count) ;;
  count <- lift (str_int n) ;;
  _ <- print (qualname +:+ " was called " +:+ count +:+ " times:") ;;
  inputs <- on_redis (Redis.lrange (qualname +:+ ":inputs") 0 (-1)) ;;
  outputs <- on_redis (Redis.lrange (qualname +:+ ":outputs") 0 (-1)) ;;
  for_each (zip inputs outputs) (fun io =>
    input_str <- lift (decode_utf8 io.1) ;;
    output_str <- lift (decode_utf8 io.2) ;;
    print (qualname +:+ "(*" +:+ input_str +:+ ") -> " +:+ output_str)).

(** A client that calls [store] once per element of [calls], each
    element the [*args] and [**kwargs] of one call, and keeps what the
    calls return. *)
Fixpoint store_each (calls : list (list pyobj * list (string * pyobj)))
  : M world (list pyobj) :=
  match calls with
  | [] => ret []
  | c :: rest =>
      out <- call store c.1 c.2 ;;
      outs <- store_each rest ;;
      ret (out :: outs)
  end.

(** The four writes of one call of [store], in the order the server
    applies them. *)
Definition store_writes (args : list pyobj) (key value : string)
  : list Redis.write :=
  [ Redis.RPUSH "Cache.store:inputs" (tuple_text args);
    Redis.INCR "Cache.store";
    Redis.SET key value;
    Redis.RPUSH "Cache.store:outputs" key ].

End Interpreter.

(** The key the next call of [store] will generate. *)
Definition next_key (w : world) : string :=
  uuid_str (uuid4_int (urandom w (drawn w))).

(** The server accepts the bookkeeping of one more call of the function
    named [name]. *)
Definition ready (name : string) (s : Redis.server) : Prop :=
  (exists c, Redis.counter name s = Some c /\ c < Redis.LLONG_MAX) /\
  is_Some (Redis.elements (name +:+ ":inputs") s) /\
  is_Some (Redis.elements (name +:+ ":outputs") s).

(** A computation that leaves the server as it found it. *)
Definition read_only {A} (m : M world A) : Prop :=
  forall w, redis (m w).2 = redis w.

(** The lines [replay] prints. *)
Definition header (name : string) (n : Z) : string :=
  name +:+ " was called " +:+ numeral n +:+ " times:".

Definition transcript_line (name : string) (io : string * string) : string :=
  name +:+ "(*" +:+ io.1 +:+ ") -> " +:+ io.2.


End Exercise.

(** ** web.py *)

Module Web.

(** What [requests.get] hands back when it returns at all. *)
Record response := Response { status_code : Z; text : string }.

Record world := World {
  r : Redis.server;              (* the module-level connection [r] *)
  requests_made : list string    (* URLs handed to [requests.get], oldest first *)
}.

Definition on_redis {A} (c : M Redis.server A) : M world A := fun w =>
  let (res, s) := c (r w) in (res, World s (requests_made w)).

Definition elapse (ms : N) (w : world) : world :=
  World (Redis.elapse ms (r w)) (requests_made w).

(** [if cached:] holds for bytes that are there and not empty. *)
Definition truthy (cached : option string) : option string :=
  match cached with
  | Some b => if decide (b = "") then None else Some b
  | None => None
  end.

Section Network.

(** The answer of the network to a GET of a URL at an instant: a
    response, whatever its status, or an exception. *)
Variable requests_get : string -> Z -> result response.

(** The body of [get_page], before decoration:
    [requests.get(url).text]. *)
Definition get_page_body (url : string) : M world string := fun w =>
  let w' := World (r w) (requests_made w ++ [url]) in
  match requests_get url (Redis.now (r w)) with
  | Ok resp => (Ok (text resp), w')
  | Raise e => (Raise e, w')
  end.

Definition count_url_access (method : string -> M world string)
  (url : string) : M world string :=
  _ <- on_redis (Redis.incr ("count:" +:+ url)) ;;
  method url.

Definition cache_page (expiration : Z) (method : string -> M world string)
  (url : string) : M world string :=
  let cache_key := "cache:" +:+ url in
  cached <- on_redis (Redis.get cache_key) ;;
  match truthy cached with
  | Some b => lift (decode_utf8 b)
  | None =>
      result <- method url ;;
      seconds <- lift (str_int expiration) ;;
      _ <- on_redis (Redis.setex cache_key seconds result) ;;
      ret result
  end.

Definition get_page : string -> M world string :=
  cache_page 10 (count_url_access get_page_body).

(** A client calling [get_page] three times for one URL, the second
    call [d1] milliseconds after the first and the third [d2]
    milliseconds after the second. *)
Definition three_calls (url : string) (d1 d2 : N) (w0 : world) : world :=
  let w1 := (get_page url w0).2 in
  let w2 := (get_page url (elapse d1 w1)).2 in
  (get_page url (elapse d2 w2)).2.

(** A client asking for one URL again and again, waiting before each
    call; it keeps what the calls return. *)
Fixpoint revisit (url : string) (delays : list N) (w : world)
  : list (result string) * world :=
  match delays with
  | [] => ([], w)
  | dt :: rest =>
      let first := get_page url (elapse dt w) in
      let others := revisit url rest first.2 in
      (first.1 :: others.1, others.2)
  end.

(** A client browsing: each step waits, then asks for a URL. *)
Fixpoint browse (steps : list (N * string)) (w : world) : world :=
  match steps with
  | [] => w
  | step :: rest => browse rest (get_page step.2 (elapse step.1 w)).2
  end.

End Network.

(** What [get_page] finds in the cache for a URL: a live, non-empty
    body (a hit), or nothing it will use (a miss: no entry, an expired
    entry, or an empty body). *)
Definition hit (url : string) (w : world) (b : string) : Prop :=
  exists ex, Redis.lookup_key ("cache:" +:+ url) (r w)
             = Some (Redis.Entry (Redis.RString b) ex) /\ b <> "".

Definition miss (url : string) (w : world) : Prop :=
  Redis.lookup_key ("cache:" +:+ url) (r w) = None \/
  exists ex, Redis.lookup_key ("cache:" +:+ url) (r w)
             = Some (Redis.Entry (Redis.RString "") ex).

(** The number of HTTP requests made so far for a URL. *)
Definition requests_for (url : string) (w : world) : nat :=
  length (filter (fun u => u = url) (requests_made w)).

(** The access counter of every URL holds the number of requests made for
    it, with no expiry; a URL never requested has no counter. *)
Definition counted (w : world) : Prop :=
  forall url,
    Redis.db (r w) !! ("count:" +:+ url) =
    match requests_for url w with
    | O => None
    | S n => Some (Redis.Entry (Redis.RString (Redis.ll2string (Z.of_nat (S n)))) None)
    end.

(** Every cached page expires, ten seconds from now at the latest. *)
Definition short_lived (w : world) : Prop :=
  forall url e,
    Redis.db (r w) !! ("cache:" +:+ url) = Some e ->
    exists t, Redis.expire_at e = Some t /\ t <= Redis.now (r w) + 10000.

End Web.

(** ** Scenarios

    Concrete interpreters, servers and networks on which the properties
    below are exercised. *)

Module Scenario.

(** [repr] of a [str] made of ASCII characters: the quoting of [bytes]
    without the prefix. *)
Definition ascii_repr (s : string) : string := Exercise.quoted s.

Fixpoint zeros (n : nat) : string :=
  match n with
  | O => ""
  | S n' => String "0" (zeros n')
  end.

Fixpoint lstrip_zeros (s : string) : string :=
  match s with
  | String "0" s' => lstrip_zeros s'
  | _ => s
  end.

(** The [digits] decimals of [numerator / 10 ^ digits], without trailing
    zeros, and "0" when none is left. *)
Definition decimals (digits : nat) (numerator : Z) : string :=
  let text := numeral (numerator mod 10 ^ Z.of_nat digits) in
  let padded :=
    if digits is O then ""
    else zeros (digits - String.length text) +:+ text in
  match String.rev (lstrip_zeros (String.rev padded)) with
  | "" => "0"
  | kept => kept
  end.

(** The exact decimal expansion of a float: [repr] on the floats whose
    expansion is short, such as 0.5, 1.5 and 42.0. *)
Definition decimal_repr (x : spec_float) : string :=
  match x with
  | S754_zero s => if s then "-0.0" else "0.0"
  | S754_infinity s => if s then "-inf" else "inf"
  | S754_nan => "nan"
  | S754_finite s m e =>
      let digits := Z.to_nat (- e) in
      let numerator := if 0 <=? e then Z.pos m * 2 ^ e else Z.pos m * 5 ^ (- e) in
      (if s then "-" else "") +:+ numeral (numerator / 10 ^ Z.of_nat digits)
        +:+ "." +:+ decimals digits numerator
  end.

Definition store := Exercise.store ascii_repr decimal_repr.



(** A new [Cache()] on a server that held something else. *)
Definition booted : Exercise.world :=
  Exercise.World
    (Redis.Server {[ "leftover" := Redis.Entry (Redis.RString "x") None ]} 0 [])
    (fun draw => (N.of_nat draw * 0x9e3779b97f4a7c15f39cc0605cedc835 + 0x2545f4914f6cdd1d)%N)
    0 [].

Definition cache : Exercise.world := (Exercise.init booted).2.

(** [store("foo")], [store(b"bar")], [store(42)], [store(data=1.5)]. *)
Definition calls : list (list Exercise.pyobj * list (string * Exercise.pyobj)) :=
  [ ([Exercise.PyStr "foo"], []);
    ([Exercise.PyBytes "bar"], []);
    ([Exercise.PyInt 42], []);
    ([], [("data", Exercise.PyFloat (S754_finite false 3 (-1)))]) ].

Definition after_calls : Exercise.world :=
  (Exercise.store_each ascii_repr decimal_repr calls cache).2.

Definition returned : list Exercise.pyobj :=
  match (Exercise.store_each ascii_repr decimal_repr calls cache).1 with
  | Ok outs => outs
  | Raise _ => []
  end.

(** A server on which somebody stored text under the key "name" and
    pushed one more input than outputs for a function "f". *)
Definition tampered : Exercise.world :=
  Exercise.World
    (Redis.Server
       {[ "name" := Redis.Entry (Redis.RString "Ada") None;
          "f" := Redis.Entry (Redis.RString "3") None;
          "f:inputs" := Redis.Entry (Redis.RList ["(1,)"; "(2,)"; "(3,)"]) None;
          "f:outputs" := Redis.Entry (Redis.RList ["a"; "b"]) None ]} 0 [])
    (fun _ => 0%N) 0 [].

Definition f : Exercise.pyfunc := Exercise.Func "f" (fun _ _ => ret Exercise.PyNone).

(** A network with a page whose body shows the time it was served at, a
    page with an empty body that gets content after one second, a page
    that is not there any more, and no route to anything else. *)
Definition network (url : string) (t : Z) : result Web.response :=
  if decide (url = "http://x/a")
  then Ok (Web.Response 200 ("<p>" +:+ numeral t +:+ "</p>"))
  else if decide (url = "http://x/empty")
  then Ok (Web.Response 200 (if t <? 1000 then "" else "late"))
  else if decide (url = "http://x/gone")
  then Ok (Web.Response 404 "Not Found")
  else Raise (RequestException "ConnectionError").


(** Histories of "f" whose second input is not UTF-8. *)
Definition garbled : Exercise.world :=
  Exercise.World
    (Redis.Server
       {[ "f" := Redis.Entry (Redis.RString "3") None;
          "f:inputs" := Redis.Entry
                          (Redis.RList ["(1,)"; String (ascii_of_N 0xFF) ""; "(3,)"]) None;
          "f:outputs" := Redis.Entry (Redis.RList ["a"; "b"; "c"]) None ]} 0 [])
    (fun _ => 0%N) 0 [].

(** A function whose name is a key of [tampered] that holds text. *)
Definition name : Exercise.pyfunc :=
  Exercise.Func "name" (fun _ _ => ret Exercise.PyNone).

Definition web : Web.world := Web.World (Redis.fresh 0) [].

(** A browsing session: a page, the same page five seconds later, a page
    that is gone, the first page again after its entry has expired, and a
    host that does not answer. *)
Definition session : list (N * string) :=
  [ (0%N, "http://x/a"); (5000%N, "http://x/a"); (1000%N, "http://x/gone");
    (6000%N, "http://x/a"); (0%N, "http://nowhere") ].

(** After a first call for the page that shows the time. *)
Definition web_a : Web.world := (Web.get_page network "http://x/a" web).2.

(** Two seconds after a first call for the page with the empty body. *)
Definition web_empty : Web.world :=
  Web.elapse 2000 (Web.get_page network "http://x/empty" web).2.

End Scenario.

(** * Properties *)

(** ** Decimal text *)

Module PyFacts.

Lemma to_int_norm (z : Z) : Decimal.norm (Z.to_int z) = Z.to_int z.
Proof.
  rewrite <- DecimalZ.to_of. now rewrite DecimalZ.of_to.
Qed.

Lemma to_int_pos_nonnil (z : Z) : Z.to_int z <> Decimal.Pos Decimal.Nil.
Proof.
  rewrite <- to_int_norm. destruct (Z.to_int z) as [d|d]; simpl.
  - intros [= H]. now apply (unorm_nonnil d).
  - destruct (Decimal.nzhead d); discriminate.
Qed.

Lemma to_int_neg_nonnil (z : Z) : Z.to_int z <> Decimal.Neg Decimal.Nil.
Proof.
  rewrite <- to_int_norm. destruct (Z.to_int z) as [d|d]; simpl.
  - discriminate.
  - destruct (Decimal.nzhead d); discriminate.
Qed.

(** Reading back the decimal text of an integer. *)
Lemma int_of_string_numeral (z : Z) :
  NilZero.int_of_string (numeral z) = Some (Z.to_int z).
Proof.
  unfold numeral. apply NilZero.isi.
  - apply to_int_pos_nonnil.
  - apply to_int_neg_nonnil.
Qed.

(** *** The built-ins on a few inputs *)

Example utf8_two_bytes : utf8_valid (String (ascii_of_N 0xC3) (String (ascii_of_N 0xA9) "")) = true.
Proof. reflexivity. Qed.

Example utf8_four_bytes :
  utf8_valid (String (ascii_of_N 0xF0) (String (ascii_of_N 0x9F)
             (String (ascii_of_N 0x98) (String (ascii_of_N 0x80) "")))) = true.
Proof. reflexivity. Qed.

Example utf8_overlong : utf8_valid (String (ascii_of_N 0xC0) (String (ascii_of_N 0x80) "")) = false.
Proof. reflexivity. Qed.

Example utf8_surrogate :
  utf8_valid (String (ascii_of_N 0xED) (String (ascii_of_N 0xA0) (String (ascii_of_N 0x80) ""))) = false.
Proof. reflexivity. Qed.

Example utf8_above_range :
  utf8_valid (String (ascii_of_N 0xF4) (String (ascii_of_N 0x90)
             (String (ascii_of_N 0x80) (String (ascii_of_N 0x80) "")))) = false.
Proof. reflexivity. Qed.

Example utf8_truncated : utf8_valid (String (ascii_of_N 0xE2) (String (ascii_of_N 0x82) "")) = false.
Proof. reflexivity. Qed.

Example int_plain : parse_int "42" = Some 42.
Proof. reflexivity. Qed.

Example int_spaces_sign : parse_int "  -17 " = Some (-17).
Proof. reflexivity. Qed.

Example int_underscores : parse_int "+1_000" = Some 1000.
Proof. reflexivity. Qed.

Example int_leading_zeros : parse_int "007" = Some 7.
Proof. reflexivity. Qed.

Example int_text : parse_int "foo" = None.
Proof. reflexivity. Qed.

Example int_empty : parse_int "" = None.
Proof. reflexivity. Qed.

Example int_float_text : parse_int "1.5" = None.
Proof. reflexivity. Qed.

Example int_double_underscore : parse_int "1__0" = None.
Proof. reflexivity. Qed.

Example int_sign_then_space : parse_int "- 5" = None.
Proof. reflexivity. Qed.

(** *** [int] reads what [str] writes *)

Lemma digit_not_space a : is_digit a = true -> is_space a = false.
Proof.
  unfold is_digit, is_space, byte_in.
  destruct (N.leb_spec 48 (N_of_ascii a)); [|discriminate].
  destruct (N.leb_spec 9 (N_of_ascii a)); [|lia].
  destruct (N.leb_spec (N_of_ascii a) 13); [lia|].
  destruct (N.leb_spec 32 (N_of_ascii a)); [|lia].
  destruct (N.leb_spec (N_of_ascii a) 32); [lia|]. reflexivity.
Qed.

Lemma digit_not_underscore a : is_digit a = true -> is_underscore a = false.
Proof.
  unfold is_digit, is_underscore, byte_in.
  destruct (N.leb_spec (N_of_ascii a) 57); [|now rewrite andb_false_r].
  destruct (N.leb_spec 95 (N_of_ascii a)); [lia|]. reflexivity.
Qed.

Lemma digit_not_sign a :
  is_digit a = true -> (a =? "+")%char = false /\ (a =? "-")%char = false.
Proof.
  intros H. split.
  - destruct (Ascii.eqb_spec a "+"); [subst; discriminate|reflexivity].
  - destruct (Ascii.eqb_spec a "-"); [subst; discriminate|reflexivity].
Qed.

Lemma all_digits_of_uint d : all_digits (NilEmpty.string_of_uint d) = true.
Proof. induction d; simpl; auto. Qed.

Lemma all_digits_rev_app s acc :
  all_digits s = true -> all_digits acc = true ->
  all_digits (String.rev_app s acc) = true.
Proof.
  revert acc. induction s as [|a s IH]; intros acc Hs Hacc; simpl in *; [assumption|].
  apply andb_prop in Hs as [Ha Hs]. apply IH; [assumption|]. simpl. now rewrite Ha.
Qed.

Lemma lstrip_digits s : all_digits s = true -> lstrip s = s.
Proof.
  destruct s as [|a s]; simpl; [reflexivity|]. intros H.
  apply andb_prop in H as [Ha _]. now rewrite (digit_not_space a Ha).
Qed.

Lemma lstrip_rev_app s acc :
  all_digits s = true -> lstrip acc = acc ->
  lstrip (String.rev_app s acc) = String.rev_app s acc.
Proof.
  revert acc. induction s as [|a s IH]; intros acc Hs Hacc; [assumption|].
  simpl in Hs. apply andb_prop in Hs as [Ha Hs]. cbn [String.rev_app].
  apply IH; [assumption|]. simpl. now rewrite (digit_not_space a Ha).
Qed.

Lemma string_app_cons a (s t : string) : String a s +:+ t = String a (s +:+ t).
Proof. reflexivity. Qed.

Lemma string_app_nil_r (s : string) : s +:+ "" = s.
Proof.
  induction s as [|a s IH]; [reflexivity|]. now rewrite string_app_cons, IH.
Qed.

Lemma rev_app_rev_app s a b :
  String.rev_app (String.rev_app s a) b = String.rev_app a (s +:+ b).
Proof.
  revert a b. induction s as [|c s IH]; intros a b; [reflexivity|].
  cbn [String.rev_app]. rewrite IH. now rewrite string_app_cons.
Qed.

Lemma string_rev_involutive s : String.rev (String.rev s) = s.
Proof.
  unfold String.rev. rewrite rev_app_rev_app. cbn [String.rev_app].
  apply string_app_nil_r.
Qed.

Lemma strip_digits s : all_digits s = true -> rstrip (lstrip s) = s.
Proof.
  intros H. rewrite (lstrip_digits s H). unfold rstrip.
  rewrite lstrip_digits; [apply string_rev_involutive|].
  unfold String.rev. now apply all_digits_rev_app.
Qed.

Lemma digits_ok_digits s prev :
  all_digits s = true -> s <> "" \/ prev = true -> digits_ok prev s = true.
Proof.
  revert prev. induction s as [|a s IH]; intros prev Hs Hne; simpl in *.
  - destruct Hne; congruence.
  - apply andb_prop in Hs as [Ha Hs]. rewrite Ha. apply IH; auto.
Qed.

Lemma drop_underscores_digits s : all_digits s = true -> drop_underscores s = s.
Proof.
  induction s as [|a s IH]; simpl; [reflexivity|]. intros H.
  apply andb_prop in H as [Ha Hs]. rewrite (digit_not_underscore a Ha).
  now rewrite IH.
Qed.

Lemma length_string_of_uint d :
  String.length (NilEmpty.string_of_uint d) = Decimal.nb_digits d.
Proof. induction d; simpl; congruence. Qed.

Lemma string_of_uint_nonnil d :
  d <> Decimal.Nil -> NilZero.string_of_uint d = NilEmpty.string_of_uint d.
Proof. destruct d; [congruence|reflexivity..]. Qed.

(** *** Counting digits *)

Lemma decimal_digits_0 : decimal_digits 0 = 1.
Proof. reflexivity. Qed.

Lemma decimal_digits_pos p :
  decimal_digits (Z.pos p) = Z.of_nat (Decimal.nb_digits (Pos.to_uint p)).
Proof.
  unfold decimal_digits, numeral. simpl Z.abs. simpl Z.to_int.
  unfold NilZero.string_of_int.
  rewrite string_of_uint_nonnil by apply DecimalPos.Unsigned.to_uint_nonnil.
  now rewrite length_string_of_uint.
Qed.

Lemma decimal_digits_opp z : decimal_digits (- z) = decimal_digits z.
Proof. unfold decimal_digits. now rewrite Z.abs_opp. Qed.

(** The numeral of a number read from digits is no longer than the
    digits. *)
Lemma decimal_digits_of_uint d :
  d <> Decimal.Nil ->
  decimal_digits (Z.of_N (N.of_uint d)) <= Z.of_nat (Decimal.nb_digits d).
Proof.
  intros Hd. destruct (N.of_uint d) as [|p] eqn:E.
  - simpl Z.of_N. rewrite decimal_digits_0.
    destruct d; [congruence|simpl Decimal.nb_digits; lia..].
  - simpl Z.of_N. rewrite decimal_digits_pos.
    change (Pos.to_uint p) with (N.to_uint (N.pos p)).
    rewrite <- E, DecimalN.Unsigned.to_of.
    pose proof (nb_digits_unorm d Hd). lia.
Qed.


Lemma usize_nb_digits d :
  DecimalPos.Unsigned.usize d = N.of_nat (Decimal.nb_digits d).
Proof.
  induction d; simpl DecimalPos.Unsigned.usize; simpl Decimal.nb_digits;
    rewrite ?IHd; lia.
Qed.

(** A numeral of [n] digits that does not start with 0 is worth
    [10 ^ (n - 1)] at least. *)
Lemma of_uint_lower d :
  Decimal.nzhead d = d -> d <> Decimal.Nil ->
  (10 ^ N.of_nat (Decimal.nb_digits d - 1) <= Pos.of_uint d)%N.
Proof.
  intros Hn Hd. rewrite DecimalPos.Unsigned.of_uint_alt.
  destruct d as [|d|d|d|d|d|d|d|d|d|d]; [congruence| |
    unfold Decimal.rev; simpl Decimal.revapp;
    rewrite DecimalPos.Unsigned.of_lu_revapp, usize_nb_digits;
    simpl Decimal.nb_digits;
    replace (S (Decimal.nb_digits d) - 1)%nat with (Decimal.nb_digits d) by lia;
    simpl DecimalPos.Unsigned.of_lu;
    generalize (10 ^ N.of_nat (Decimal.nb_digits d))%N
               (DecimalPos.Unsigned.of_lu (Decimal.rev d)); intros; lia ..].
  exfalso. simpl in Hn. now apply (nzhead_nonzero d d).
Qed.

Lemma to_uint_nzhead p : Decimal.nzhead (Pos.to_uint p) = Pos.to_uint p.
Proof.
  assert (U : Decimal.unorm (Pos.to_uint p) = Pos.to_uint p).
  { rewrite <- DecimalPos.Unsigned.to_of, DecimalPos.Unsigned.of_to. reflexivity. }
  unfold Decimal.unorm in U.
  destruct (Decimal.nzhead (Pos.to_uint p)) eqn:E; try assumption.
  exfalso. symmetry in U. now apply DecimalPos.Unsigned.to_uint_nonzero in U.
Qed.

(** An integer below [10 ^ k] in absolute value has [k] digits at
    most. *)
Lemma decimal_digits_below (z k : Z) :
  1 <= k -> Z.abs z < 10 ^ k -> decimal_digits z <= k.
Proof.
  intros Hk Hz.
  assert (P : forall p, Z.pos p < 10 ^ k -> decimal_digits (Z.pos p) <= k).
  { clear z Hz. intros p Hp. rewrite decimal_digits_pos.
    pose proof (of_uint_lower (Pos.to_uint p) (to_uint_nzhead p)
                  (DecimalPos.Unsigned.to_uint_nonnil p)) as L.
    rewrite DecimalPos.Unsigned.of_to in L.
    destruct (Z.le_gt_cases (Z.of_nat (Decimal.nb_digits (Pos.to_uint p))) k) as [|G];
      [assumption|exfalso].
    assert (M : (10 ^ Z.to_N k <= 10 ^ N.of_nat (Decimal.nb_digits (Pos.to_uint p) - 1))%N).
    { apply N.pow_le_mono_r; lia. }
    apply N2Z.inj_le in L, M. rewrite N2Z.inj_pow in L, M.
    rewrite Z2N.id in M by lia. simpl Z.of_N in L, M. lia. }
  destruct z as [|p|p].
  - rewrite decimal_digits_0. assumption.
  - now apply P.
  - change (Z.neg p) with (- Z.pos p). rewrite decimal_digits_opp. now apply P.
Qed.

(** *** [str] of an integer *)

Lemma str_int_Ok z text :
  str_int z = Ok text -> text = numeral z /\ decimal_digits z <= max_str_digits.
Proof.
  unfold str_int. destruct (Z.leb_spec (decimal_digits z) max_str_digits); [|discriminate].
  intros [= <-]. auto.
Qed.

Lemma str_int_short z :
  decimal_digits z <= max_str_digits -> str_int z = Ok (numeral z).
Proof. intros H. unfold str_int. now rewrite (proj2 (Z.leb_le _ _)). Qed.


(** Signed 64-bit integers are far below the limit. *)
Lemma decimal_digits_64 z :
  - 2 ^ 63 <= z <= 2 ^ 63 - 1 -> decimal_digits z <= max_str_digits.
Proof.
  intros Hz. apply Z.le_trans with 19; [|discriminate].
  apply decimal_digits_below; [lia|].
  change (10 ^ 19) with 10000000000000000000.
  change (2 ^ 63) with 9223372036854775808 in Hz. lia.
Qed.

Lemma str_int_64 z : - 2 ^ 63 <= z <= 2 ^ 63 - 1 -> str_int z = Ok (numeral z).
Proof. intros Hz. apply str_int_short. now apply decimal_digits_64. Qed.

(** *** [int] reads back what [str] writes *)

Lemma magnitude_of_uint d :
  d <> Decimal.Nil -> Z.of_nat (Decimal.nb_digits d) <= max_str_digits ->
  magnitude (NilEmpty.string_of_uint d) = Some (Z.of_N (N.of_uint d)).
Proof.
  intros Hd Hn. unfold magnitude.
  rewrite digits_ok_digits; [|apply all_digits_of_uint|].
  - rewrite drop_underscores_digits by apply all_digits_of_uint.
    rewrite length_string_of_uint, (proj2 (Z.leb_le _ _)) by assumption.
    now rewrite NilEmpty.usu.
  - left. destruct d; simpl; congruence.
Qed.

Lemma parse_digits d :
  d <> Decimal.Nil -> Z.of_nat (Decimal.nb_digits d) <= max_str_digits ->
  parse_int (NilEmpty.string_of_uint d) = Some (Z.of_N (N.of_uint d)).
Proof.
  intros Hd Hn. unfold parse_int. rewrite strip_digits by apply all_digits_of_uint.
  pose proof (magnitude_of_uint d Hd Hn) as M.
  pose proof (all_digits_of_uint d) as A.
  destruct (NilEmpty.string_of_uint d) as [|a body]; [discriminate M|].
  simpl in A. apply andb_prop in A as [Ha _].
  destruct (digit_not_sign a Ha) as [-> ->]. assumption.
Qed.

(** [int(str(z).encode()) == z], for [z] of a size [str] accepts. *)
Lemma parse_int_numeral (z : Z) :
  decimal_digits z <= max_str_digits -> parse_int (numeral z) = Some z.
Proof.
  intros Hz. destruct z as [|p|p].
  - reflexivity.
  - rewrite decimal_digits_pos in Hz. unfold numeral. simpl Z.to_int.
    pose proof (DecimalPos.Unsigned.to_uint_nonnil p) as Hp.
    unfold NilZero.string_of_int. rewrite string_of_uint_nonnil by assumption.
    rewrite parse_digits by assumption.
    unfold N.of_uint. now rewrite DecimalPos.Unsigned.of_to.
  - change (Z.neg p) with (- Z.pos p) in Hz.
    rewrite decimal_digits_opp, decimal_digits_pos in Hz.
    unfold numeral. simpl Z.to_int.
    pose proof (DecimalPos.Unsigned.to_uint_nonnil p) as Hp.
    unfold NilZero.string_of_int. rewrite string_of_uint_nonnil by assumption.
    unfold parse_int.
    assert (A : all_digits (NilEmpty.string_of_uint (Pos.to_uint p)) = true)
      by apply all_digits_of_uint.
    assert (St : rstrip (lstrip (String "-" (NilEmpty.string_of_uint (Pos.to_uint p))))
                 = String "-" (NilEmpty.string_of_uint (Pos.to_uint p))).
    { change (lstrip (String "-" ?t)) with (String "-" t).
      unfold rstrip, String.rev. cbn [String.rev_app].
      rewrite lstrip_rev_app by (assumption || reflexivity).
      rewrite rev_app_rev_app. cbn [String.rev_app].
      now rewrite string_app_nil_r. }
    rewrite St.
    change ("-" =? "+")%char with false. change ("-" =? "-")%char with true.
    cbv iota. rewrite magnitude_of_uint by assumption.
    unfold N.of_uint. now rewrite DecimalPos.Unsigned.of_to.
Qed.

(** *** [str] writes what [int] has read *)

Lemma magnitude_digits body m :
  magnitude body = Some m -> 0 <= m /\ decimal_digits m <= max_str_digits.
Proof.
  unfold magnitude.
  destruct (digits_ok false body); [|discriminate]. cbn [andb].
  destruct (Z.leb_spec (Z.of_nat (String.length (drop_underscores body))) max_str_digits)
    as [Hn|]; [|discriminate].
  destruct (NilEmpty.uint_of_string (drop_underscores body)) as [d|] eqn:E; [|discriminate].
  intros [= <-]. split; [lia|].
  apply NilEmpty.sus in E. rewrite <- E, length_string_of_uint in Hn.
  assert (Hd : d = Decimal.Nil \/ d <> Decimal.Nil)
    by (destruct d; [left; reflexivity|right; discriminate..]).
  destruct Hd as [->|Hd]; [vm_compute; discriminate|].
  pose proof (decimal_digits_of_uint d Hd). lia.
Qed.

(** What [int] has read, [str] writes. *)
Lemma parse_int_digits b n :
  parse_int b = Some n -> decimal_digits n <= max_str_digits.
Proof.
  unfold parse_int. destruct (rstrip (lstrip b)) as [|a body]; [discriminate|].
  destruct (a =? "+")%char; [intros H; now apply magnitude_digits in H|].
  destruct (a =? "-")%char; [|intros H; now apply magnitude_digits in H].
  destruct (magnitude body) as [m|] eqn:E; [|discriminate].
  intros [= <-]. rewrite decimal_digits_opp. now apply magnitude_digits in E.
Qed.

Lemma int_of_bytes_str_int b n :
  int_of_bytes b = Ok n -> str_int n = Ok (numeral n).
Proof.
  unfold int_of_bytes. destruct (parse_int b) as [z|] eqn:E; [|discriminate].
  intros [= <-]. apply str_int_short. now apply parse_int_digits in E.
Qed.

(** *** ASCII text is UTF-8 *)

Lemma utf8_valid_ascii s : ascii_only s = true -> utf8_valid s = true.
Proof.
  induction s as [|a s IH]; [reflexivity|]. cbn [ascii_only utf8_valid].
  intros H. apply andb_prop in H as [-> Hs]. auto.
Qed.

Lemma ascii_only_app s t :
  ascii_only s = true -> ascii_only t = true -> ascii_only (s +:+ t) = true.
Proof.
  induction s as [|a s IH]; [auto|]. rewrite string_app_cons. cbn [ascii_only].
  intros H Ht. apply andb_prop in H as [-> Hs]. auto.
Qed.

End PyFacts.

(** ** The server *)

Module RedisFacts.
Import Redis PyFacts.

Lemma string2ll_ll2string (z : Z) :
  LLONG_MIN <= z <= LLONG_MAX -> string2ll (ll2string z) = Some z.
Proof.
  intros Hz. unfold string2ll, ll2string.
  fold (numeral z). rewrite int_of_string_numeral.
  cbv zeta. rewrite DecimalZ.of_to. fold (numeral z).
  rewrite decide_True by reflexivity.
  destruct (Z.leb_spec LLONG_MIN z); [|lia].
  destruct (Z.leb_spec z LLONG_MAX); [reflexivity|lia].
Qed.

(** [string2ll] accepts canonical text only. *)
Lemma string2ll_canonical (b : string) (z : Z) :
  string2ll b = Some z -> b = ll2string z /\ LLONG_MIN <= z <= LLONG_MAX.
Proof.
  unfold string2ll. destruct (NilZero.int_of_string b) as [d|]; [|discriminate].
  cbv zeta. destruct (decide (ll2string (Z.of_int d) = b)) as [E|]; [|discriminate].
  destruct (Z.leb_spec LLONG_MIN (Z.of_int d)); [|discriminate].
  destruct (Z.leb_spec (Z.of_int d) LLONG_MAX); [|discriminate].
  intros [= <-]. auto.
Qed.

Lemma slice_all (l : list string) : slice l 0 (-1) = l.
Proof.
  destruct l as [|x l']; [reflexivity|].
  unfold slice. cbv zeta.
  set (n := Z.of_nat (length (x :: l'))).
  assert (Hn : 0 < n) by (subst n; simpl length; lia).
  repeat match goal with
         | |- context [?a <? ?b] => destruct (Z.ltb_spec a b); try lia
         | |- context [?a <=? ?b] => destruct (Z.leb_spec a b); try lia
         end.
  all: simpl orb; cbv iota.
  all: replace (Z.to_nat (n + -1 - 0 + 1)) with (length (x :: l')) by (subst n; lia).
  all: simpl Z.to_nat; rewrite drop_0; apply firstn_all.
Qed.

Example string2ll_examples :
  string2ll "12" = Some 12 /\ string2ll "-7" = Some (-7) /\
  string2ll "007" = None /\ string2ll "+5" = None /\ string2ll "-0" = None /\
  string2ll " 1" = None /\ string2ll "" = None /\
  string2ll "9223372036854775807" = Some LLONG_MAX /\
  string2ll "9223372036854775808" = None.
Proof. repeat split; reflexivity. Qed.

Example slice_examples :
  slice ["a"; "b"; "c"] 1 1 = ["b"] /\ slice ["a"; "b"; "c"] (-2) 10 = ["b"; "c"] /\
  slice ["a"; "b"; "c"] 2 1 = [] /\ slice ["a"; "b"; "c"] (-100) 0 = ["a"].
Proof. repeat split; reflexivity. Qed.

(** *** One write at a time *)

Lemma wrote_applied k e c s : wrote k c s (applied k e c s).
Proof.
  unfold wrote, applied; simpl. repeat split.
  intros k' Hk. now rewrite lookup_insert_ne by congruence.
Qed.

Lemma lookup_applied k e c s :
  lookup_key k (applied k e c s) = if expired (now s) e then None else Some e.
Proof.
  unfold lookup_key, applied; simpl. now rewrite lookup_insert_eq.
Qed.

Lemma wrote_lookup k c s s' k' :
  wrote k c s s' -> k' <> k -> lookup_key k' s' = lookup_key k' s.
Proof.
  intros (Hnow & _ & Hdb) Hk. unfold lookup_key. now rewrite Hdb, Hnow.
Qed.

Lemma wrote_counter k c s s' k' :
  wrote k c s s' -> k' <> k -> counter k' s' = counter k' s.
Proof. intros W Hk. unfold counter. now rewrite (wrote_lookup _ _ _ _ _ W Hk). Qed.

Lemma wrote_elements k c s s' k' :
  wrote k c s s' -> k' <> k -> elements k' s' = elements k' s.
Proof. intros W Hk. unfold elements. now rewrite (wrote_lookup _ _ _ _ _ W Hk). Qed.

(** An entry a command has just seen is not expired. *)
Lemma lookup_key_live k s e : lookup_key k s = Some e -> expired (now s) e = false.
Proof.
  unfold lookup_key. destruct (db s !! k) as [e'|]; [|discriminate].
  destruct (expired (now s) e') eqn:E; [discriminate|]. now intros [= <-].
Qed.

(** *** The commands *)

Lemma get_reads k s : (get k s).2 = s.
Proof.
  unfold get. destruct (lookup_key k s) as [[[b|l] ex]|]; reflexivity.
Qed.

Lemma lrange_reads k a b s : (lrange k a b s).2 = s.
Proof.
  unfold lrange. destruct (lookup_key k s) as [[[?|l] ex]|]; reflexivity.
Qed.

Lemma lrange_all k s :
  lrange k 0 (-1) s =
  (match elements k s with Some l => Ok l | None => Raise (ResponseError WRONGTYPE) end, s).
Proof.
  unfold lrange, elements.
  destruct (lookup_key k s) as [[[?|l] ex]|]; try reflexivity.
  now rewrite slice_all.
Qed.

Lemma set_Ok k v s :
  exists s', set k v s = (Ok tt, s') /\ wrote k (SET k v) s s' /\
             lookup_key k s' = Some (Entry (RString v) None).
Proof.
  eexists; split; [reflexivity|]. split; [apply wrote_applied|].
  now rewrite lookup_applied.
Qed.

Lemma mstime_le s : mstime s <= LLONG_MAX / 1000.
Proof. apply Z.le_min_r. Qed.

(** [SETEX] is accepted for seconds that are positive and whose deadline
    fits in 64 bits. *)
Lemma setex_Ok k ttl v s :
  0 < ttl -> ttl <= LLONG_MAX / 1000 -> mstime s + 1000 * ttl <= LLONG_MAX ->
  exists s', setex k (numeral ttl) v s = (Ok tt, s') /\ wrote k (SETEX k ttl v) s s' /\
             lookup_key k s' = Some (Entry (RString v) (Some (now s + 1000 * ttl))).
Proof.
  intros Httl Hfit Hdeadline. unfold setex. change (numeral ttl) with (ll2string ttl).
  rewrite string2ll_ll2string.
  2:{ change (LLONG_MAX / 1000) with 9223372036854775 in Hfit.
      change LLONG_MIN with (-9223372036854775808).
      change LLONG_MAX with 9223372036854775807. lia. }
  rewrite (proj2 (Z.leb_gt ttl 0)) by lia.
  rewrite (proj2 (Z.ltb_ge _ _)) by lia. cbn [orb].
  rewrite (proj2 (Z.ltb_ge _ _)) by lia.
  eexists; split; [reflexivity|]. split; [apply wrote_applied|].
  rewrite lookup_applied. unfold expired; simpl.
  now rewrite (proj2 (Z.ltb_ge _ _)) by lia.
Qed.

(** Ten seconds are accepted whatever the clock shows. *)
Lemma setex_10 k v s :
  setex k "10" v s
  = (Ok tt, applied k (Entry (RString v) (Some (now s + 1000 * 10))) (SETEX k 10 v) s).
Proof.
  unfold setex. change (string2ll "10") with (Some 10). cbv beta iota.
  change ((10 <=? 0) || (LLONG_MAX / 1000 <? 10)) with false. cbv beta iota.
  pose proof (mstime_le s) as H.
  change (LLONG_MAX / 1000) with 9223372036854775 in H.
  rewrite (proj2 (Z.ltb_ge _ _)); [reflexivity|].
  change LLONG_MAX with 9223372036854775807. lia.
Qed.

(** Text that is no 64-bit integer, and seconds that are not positive,
    are refused. *)
Lemma string2ll_out_of_range (z : Z) :
  ~ (LLONG_MIN <= z <= LLONG_MAX) -> string2ll (ll2string z) = None.
Proof.
  intros Hz. unfold string2ll, ll2string.
  fold (numeral z). rewrite int_of_string_numeral.
  cbv zeta. rewrite DecimalZ.of_to. fold (numeral z).
  rewrite decide_True by reflexivity.
  destruct (Z.leb_spec LLONG_MIN z); [|reflexivity].
  destruct (Z.leb_spec z LLONG_MAX); [|reflexivity]. lia.
Qed.

Lemma setex_not_positive k secs v s :
  secs <= 0 ->
  setex k (numeral secs) v s
  = (Raise (ResponseError (if LLONG_MIN <=? secs then InvalidExpire else NotAnInteger)), s).
Proof.
  intros Hz. unfold setex. change (numeral secs) with (ll2string secs).
  destruct (Z.leb_spec LLONG_MIN secs) as [Hmin|Hmin].
  - rewrite string2ll_ll2string.
    + now rewrite (proj2 (Z.leb_le secs 0)) by assumption.
    + split; [assumption|]. apply Z.le_trans with 0; [assumption|discriminate].
  - rewrite string2ll_out_of_range; [reflexivity|]. lia.
Qed.

Lemma incr_Ok k s n s' :
  incr k s = (Ok n, s') ->
  counter k s = Some (n - 1) /\ n - 1 < LLONG_MAX /\
  counter k s' = Some n /\ wrote k (INCR k) s s'.
Proof.
  unfold incr, counter.
  destruct (lookup_key k s) as [[[b|l] ex]|] eqn:L; [| discriminate |].
  - destruct (string2ll b) as [z|] eqn:P; [|discriminate].
    destruct (Z.leb_spec LLONG_MAX z) as [|Hz]; [discriminate|].
    intros [= <- <-]. replace (z + 1 - 1) with z by lia.
    split; [reflexivity|]. split; [assumption|]. split; [|apply wrote_applied].
    rewrite lookup_applied.
    apply lookup_key_live in L. unfold expired in *. simpl in *. rewrite L.
    apply string2ll_ll2string. apply string2ll_canonical in P.
    destruct P as [_ P]. clear - P Hz. lia.
  - intros [= <- <-].
    split; [reflexivity|]. split; [reflexivity|]. split; [|apply wrote_applied].
    rewrite lookup_applied. reflexivity.
Qed.

Lemma incr_succeeds k s c :
  counter k s = Some c -> c < LLONG_MAX ->
  exists s', incr k s = (Ok (c + 1), s').
Proof.
  unfold incr, counter.
  destruct (lookup_key k s) as [[[b|l] ex]|]; [| discriminate |].
  - intros -> Hc. rewrite (proj2 (Z.leb_gt _ _)) by lia. eauto.
  - intros [= <-] _. eauto.
Qed.

(** A refused [INCR] changes nothing. *)
Lemma incr_Raise k s e s' : incr k s = (Raise e, s') -> s' = s.
Proof.
  unfold incr.
  destruct (lookup_key k s) as [[[b|l] ex]|]; [| congruence | discriminate].
  destruct (string2ll b) as [z|]; [|congruence].
  destruct (LLONG_MAX <=? z); [congruence|discriminate].
Qed.

Lemma rpush_Ok k v s n s' :
  rpush k v s = (Ok n, s') ->
  exists l, elements k s = Some l /\ elements k s' = Some (l ++ [v])%list /\
            n = Z.of_nat (length l) + 1 /\ wrote k (RPUSH k v) s s'.
Proof.
  unfold rpush, elements.
  destruct (lookup_key k s) as [[[b|l] ex]|] eqn:L; [discriminate | |].
  - intros [= <- <-]. exists l. repeat split; [|apply wrote_applied].
    rewrite lookup_applied. apply lookup_key_live in L.
    unfold expired in *. simpl in *. now rewrite L.
  - intros [= <- <-]. exists []. repeat split; [|apply wrote_applied].
    now rewrite lookup_applied.
Qed.

Lemma rpush_succeeds k v s l :
  elements k s = Some l -> exists n s', rpush k v s = (Ok n, s').
Proof.
  unfold rpush, elements.
  destruct (lookup_key k s) as [[[b|l'] ex]|]; [discriminate | |]; eauto.
Qed.

Lemma rpush_Raise k v s e s' : rpush k v s = (Raise e, s') -> s' = s.
Proof.
  unfold rpush.
  destruct (lookup_key k s) as [[[b|l] ex]|]; [congruence | discriminate | discriminate].
Qed.

(** A counter that is not zero is there, as canonical decimal text. *)
Lemma get_counter k s n :
  counter k s = Some n -> n <> 0 ->
  Redis.get k s = (Ok (Some (numeral n)), s).
Proof.
  unfold counter, Redis.get.
  destruct (lookup_key k s) as [[[b|l] ex]|]; [|discriminate|congruence].
  intros P _. apply string2ll_canonical in P as [-> _]. reflexivity.
Qed.

End RedisFacts.

(** ** exercise.py *)

Module ExerciseFacts.
Import Redis PyFacts RedisFacts Exercise.

Lemma bind_Ok {W A B} (m : M W A) (k : A -> M W B) w b w' :
  bind m k w = (Ok b, w') ->
  exists a w1, m w = (Ok a, w1) /\ k a w1 = (Ok b, w').
Proof.
  unfold bind. destruct (m w) as [[a|e] w1]; [eauto|discriminate].
Qed.

Lemma on_redis_inv {A} (c : M server A) w res w' :
  on_redis c w = (res, w') ->
  exists s', c (redis w) = (res, s') /\
             w' = World s' (urandom w) (drawn w) (stdout w).
Proof.
  unfold on_redis. destruct (c (redis w)) as [res' s']. intros [= <- <-]. eauto.
Qed.

(** *** Generated keys *)

Lemma length_app (s1 s2 : string) :
  String.length (s1 +:+ s2) = (String.length s1 + String.length s2)%nat.
Proof. induction s1 as [|a s1 IH]; simpl; [reflexivity|now rewrite IH]. Qed.

Lemma hex_length (width : nat) (n : N) (acc : string) :
  String.length (hex width n acc) = (width + String.length acc)%nat.
Proof.
  revert n acc. induction width as [|width IH]; intros n acc; simpl; [reflexivity|].
  rewrite IH. simpl. lia.
Qed.

(** A key is 36 characters long, whatever the random bytes. *)
Lemma uuid_str_length (i : N) : String.length (uuid_str i) = 36%nat.
Proof.
  unfold uuid_str. rewrite !length_app, !hex_length. reflexivity.
Qed.

Lemma next_key_length (w : world) : String.length (next_key w) = 36%nat.
Proof. apply uuid_str_length. Qed.

Lemma hexdigit_ascii (n : N) : byte_in 0x00 0x7F (hexdigit n) = true.
Proof.
  unfold hexdigit. generalize (N.to_nat n) as k. intros k.
  do 16 (destruct k as [|k]; [reflexivity|]). reflexivity.
Qed.

Lemma hex_ascii (width : nat) (n : N) (acc : string) :
  ascii_only acc = true -> ascii_only (hex width n acc) = true.
Proof.
  revert n acc. induction width as [|width IH]; intros n acc H; [assumption|].
  cbn [hex]. apply IH. cbn [ascii_only]. now rewrite hexdigit_ascii.
Qed.

(** A key is ASCII text, hence decodes as UTF-8. *)
Lemma uuid_str_valid (i : N) : utf8_valid (uuid_str i) = true.
Proof.
  apply utf8_valid_ascii. unfold uuid_str.
  repeat (apply ascii_only_app; [try reflexivity; now apply hex_ascii|]).
  now apply hex_ascii.
Qed.

(** So it is none of the three bookkeeping keys of [store]. *)
Lemma next_key_not_bookkeeping (w : world) :
  next_key w <> "Cache.store" /\ next_key w <> "Cache.store:inputs" /\
  next_key w <> "Cache.store:outputs".
Proof.
  pose proof (next_key_length w) as L.
  repeat split; intros E; rewrite E in L; discriminate L.
Qed.

Section WithInterpreter.
Variable str_repr : string -> string.
Variable float_repr : spec_float -> string.

Abbreviation store := (Exercise.store str_repr float_repr).
Abbreviation encode := (Exercise.encode float_repr).
Abbreviation str_tuple := (Exercise.str_tuple str_repr float_repr).
Abbreviation tuple_text := (Exercise.tuple_text str_repr float_repr).
Abbreviation str_text := (Exercise.str_text str_repr float_repr).

(** *** [str] and [repr] *)

Lemma str_tuple_Ok args input : str_tuple args = Ok input -> input = tuple_text args.
Proof.
  unfold Exercise.str_tuple. destruct (forallb printable args); [|discriminate].
  now intros [= <-].
Qed.


(** A value the client library encodes is a value [repr] returns on. *)
Lemma encode_printable v value : encode v = Ok value -> printable v = true.
Proof.
  destruct v as [|s|b|z|x]; try reflexivity. cbn [Exercise.encode printable].
  intros H. apply str_int_Ok in H as [_ H]. now apply Z.leb_le.
Qed.

(** So [str(args)] returns for arguments that bind a value the client
    library encodes. *)
Lemma bound_printable args kwargs data value :
  bind_data args kwargs = Ok data -> encode data = Ok value ->
  str_tuple args = Ok (tuple_text args).
Proof.
  intros Hb Hv. apply encode_printable in Hv. unfold Exercise.str_tuple.
  destruct args as [|x [|y args]], kwargs as [|[name v] [|kw kwargs]];
    try discriminate Hb; cbn [bind_data] in Hb.
  - reflexivity.
  - injection Hb as ->. cbn [forallb]. now rewrite Hv.
Qed.

(** *** One call of [store], step by step *)

Lemma call_store args kwargs w :
  call store args kwargs w =
  match str_tuple args with
  | Raise e => (Raise e, w)
  | Ok input =>
      match rpush "Cache.store:inputs" input (redis w) with
      | (Raise e, s1) => (Raise e, World s1 (urandom w) (drawn w) (stdout w))
      | (Ok _, s1) =>
          match incr "Cache.store" s1 with
          | (Raise e, s2) => (Raise e, World s2 (urandom w) (drawn w) (stdout w))
          | (Ok _, s2) =>
              match bind_data args kwargs with
              | Raise e => (Raise e, World s2 (urandom w) (drawn w) (stdout w))
              | Ok data =>
                  match encode data with
                  | Raise e => (Raise e, World s2 (urandom w) (S (drawn w)) (stdout w))
                  | Ok value =>
                      let s3 := applied (next_key w) (Entry (RString value) None)
                                        (SET (next_key w) value) s2 in
                      match rpush "Cache.store:outputs" (next_key w) s3 with
                      | (Ok _, s4) =>
                          (Ok (PyStr (next_key w)),
                           World s4 (urandom w) (S (drawn w)) (stdout w))
                      | (Raise e, s4) =>
                          (Raise e, World s4 (urandom w) (S (drawn w)) (stdout w))
                      end
                  end
              end
          end
      end
  end.
Proof.
  unfold Exercise.store, call_history.
  cbn [call qualname count_calls store_body].
  change ("Cache.store" +:+ ":inputs") with "Cache.store:inputs".
  change ("Cache.store" +:+ ":outputs") with "Cache.store:outputs".
  unfold bind at 1. unfold lift at 1.
  destruct (str_tuple args) as [input|e0]; [|reflexivity].
  unfold bind, on_redis, lift, ret, uuid4. cbn [redis urandom drawn stdout].
  destruct (rpush "Cache.store:inputs" input (redis w)) as [[n1|e1] s1];
    cbn [redis urandom drawn stdout]; [|reflexivity].
  destruct (incr "Cache.store" s1) as [[n2|e2] s2];
    cbn [redis urandom drawn stdout]; [|reflexivity].
  destruct (bind_data args kwargs) as [data|e3]; [|reflexivity].
  cbn [redis urandom drawn stdout]. fold (next_key w).
  destruct (encode data) as [value|e4]; [|reflexivity].
  cbn [redis urandom drawn stdout]. unfold Redis.set. cbn [redis urandom drawn stdout].
  cbv zeta. cbn [Exercise.str printable Exercise.str_text].
  destruct (rpush "Cache.store:outputs" (next_key w) _) as [[n4|e5] s4]; reflexivity.
Qed.

Lemma store_Ok_inv args kwargs w out w' :
  call store args kwargs w = (Ok out, w') ->
  exists data value n1 s1 n2 s2 s3 n4 s4,
    bind_data args kwargs = Ok data /\ encode data = Ok value /\
    let key := uuid_str (uuid4_int (urandom w (drawn w))) in
    out = PyStr key /\
    str_tuple args = Ok (tuple_text args) /\
    rpush "Cache.store:inputs" (tuple_text args) (redis w) = (Ok n1, s1) /\
    incr "Cache.store" s1 = (Ok n2, s2) /\
    Redis.set key value s2 = (Ok tt, s3) /\
    rpush "Cache.store:outputs" key s3 = (Ok n4, s4) /\
    w' = World s4 (urandom w) (S (drawn w)) (stdout w).
Proof.
  intros H. rewrite call_store in H.
  destruct (str_tuple args) as [input|e0] eqn:E0; [|discriminate].
  pose proof (str_tuple_Ok _ _ E0) as ->.
  destruct (rpush "Cache.store:inputs" _ (redis w)) as [[n1|e1] s1] eqn:E1; [|discriminate].
  destruct (incr "Cache.store" s1) as [[n2|e2] s2] eqn:E2; [|discriminate].
  destruct (bind_data args kwargs) as [data|e3] eqn:E3; [|discriminate].
  destruct (encode data) as [value|e4] eqn:E4; [|discriminate].
  cbv zeta in H.
  destruct (rpush "Cache.store:outputs" (next_key w) _) as [[n4|e5] s4] eqn:E5;
    [|discriminate].
  injection H as <- <-.
  exists data, value, n1, s1, n2, s2,
    (applied (next_key w) (Entry (RString value) None) (SET (next_key w) value) s2),
    n4, s4.
  cbv zeta. fold (next_key w). repeat split; assumption.
Qed.

(** What one successful call of [store] leaves on the server. *)
Lemma store_Ok_effects args kwargs w out w' :
  call store args kwargs w = (Ok out, w') ->
  exists data value c ins outs,
    bind_data args kwargs = Ok data /\ encode data = Ok value /\
    out = PyStr (next_key w) /\
    counter "Cache.store" (redis w) = Some c /\
    elements "Cache.store:inputs" (redis w) = Some ins /\
    elements "Cache.store:outputs" (redis w) = Some outs /\
    counter "Cache.store" (redis w') = Some (c + 1) /\
    elements "Cache.store:inputs" (redis w') = Some (ins ++ [tuple_text args])%list /\
    elements "Cache.store:outputs" (redis w') = Some (outs ++ [next_key w])%list /\
    lookup_key (next_key w) (redis w') = Some (Entry (RString value) None) /\
    aof (redis w') = (aof (redis w) ++ store_writes str_repr float_repr args (next_key w) value)%list /\
    now (redis w') = now (redis w).
Proof.
  intros H. apply store_Ok_inv in H.
  destruct H as (data & value & n1 & s1 & n2 & s2 & s3 & n4 & s4 & Hd & Hv & H).
  cbv zeta in H. fold (next_key w) in H.
  destruct H as (-> & _ & H1 & H2 & H3 & H4 & ->). cbn [redis].
  destruct (next_key_not_bookkeeping w) as (K0 & K1 & K2).
  apply rpush_Ok in H1 as (ins & I0 & I1 & _ & W1).
  apply incr_Ok in H2 as (C1 & _ & C2 & W2).
  destruct (set_Ok (next_key w) value s2) as (s3' & E & W3 & L3).
  rewrite E in H3. injection H3 as <-.
  apply rpush_Ok in H4 as (outs & O3 & O4 & _ & W4).
  exists data, value, (n2 - 1), ins, outs.
  split; [assumption|]. split; [assumption|]. split; [reflexivity|].
  (* the counter before the call *)
  split. { now rewrite <- (wrote_counter _ _ _ _ "Cache.store" W1). }
  split; [assumption|].
  (* the outputs before the call *)
  split.
  { rewrite <- (wrote_elements _ _ _ _ "Cache.store:outputs" W1) by discriminate.
    rewrite <- (wrote_elements _ _ _ _ "Cache.store:outputs" W2) by discriminate.
    rewrite <- (wrote_elements _ _ _ _ "Cache.store:outputs" W3) by congruence.
    assumption. }
  (* the counter after the call *)
  split.
  { rewrite (wrote_counter _ _ _ _ "Cache.store" W4) by discriminate.
    rewrite (wrote_counter _ _ _ _ "Cache.store" W3) by congruence.
    rewrite C2. f_equal. lia. }
  (* the inputs after the call *)
  split.
  { rewrite (wrote_elements _ _ _ _ "Cache.store:inputs" W4) by discriminate.
    rewrite (wrote_elements _ _ _ _ "Cache.store:inputs" W3) by congruence.
    rewrite (wrote_elements _ _ _ _ "Cache.store:inputs" W2) by discriminate.
    assumption. }
  split; [assumption|].
  split. { rewrite (wrote_lookup _ _ _ _ (next_key w) W4) by congruence. assumption. }
  destruct W1 as (T1 & A1 & _), W2 as (T2 & A2 & _),
           W3 as (T3 & A3 & _), W4 as (T4 & A4 & _).
  split; [|congruence].
  rewrite A4, A3, A2, A1. unfold store_writes.
  now rewrite <- !app_assoc.
Qed.

(** On a server that accepts the bookkeeping, a call with a value the
    client library encodes returns. *)
Lemma store_succeeds args kwargs w data value :
  bind_data args kwargs = Ok data -> encode data = Ok value ->
  ready "Cache.store" (redis w) ->
  exists w', call store args kwargs w = (Ok (PyStr (next_key w)), w').
Proof.
  intros Hd Hv ((c & C0 & Hc) & [ins I0] & [outs O0]).
  destruct (next_key_not_bookkeeping w) as (K0 & K1 & K2).
  destruct (rpush_succeeds "Cache.store:inputs" (tuple_text args) _ _ I0)
    as (n1 & s1 & E1).
  pose proof (rpush_Ok _ _ _ _ _ E1) as (? & _ & _ & _ & W1).
  assert (C1 : counter "Cache.store" s1 = Some c)
    by now rewrite (wrote_counter _ _ _ _ "Cache.store" W1).
  destruct (incr_succeeds _ _ _ C1 Hc) as (s2 & E2).
  pose proof (incr_Ok _ _ _ _ E2) as (_ & _ & _ & W2).
  pose proof (wrote_applied (next_key w) (Entry (RString value) None)
                (SET (next_key w) value) s2) as W3.
  set (s3 := applied (next_key w) (Entry (RString value) None)
                     (SET (next_key w) value) s2) in W3.
  assert (O3 : elements "Cache.store:outputs" s3 = Some outs).
  { rewrite (wrote_elements _ _ _ _ "Cache.store:outputs" W3) by congruence.
    rewrite (wrote_elements _ _ _ _ "Cache.store:outputs" W2) by discriminate.
    now rewrite (wrote_elements _ _ _ _ "Cache.store:outputs" W1). }
  destruct (rpush_succeeds "Cache.store:outputs" (next_key w) _ _ O3)
    as (n4 & s4 & E4).
  exists (World s4 (urandom w) (S (drawn w)) (stdout w)).
  rewrite call_store, (bound_printable _ _ _ _ Hd Hv), E1, E2, Hd, Hv.
  cbv zeta. fold s3. now rewrite E4.
Qed.



Lemma world_eta (w : world) :
  World (redis w) (urandom w) (drawn w) (stdout w) = w.
Proof. now destruct w. Qed.

(** Whenever [store] returns, [get] of the returned key gives back the
    bytes that were written. *)
Lemma store_Ok_get args kwargs (w : world) out w' :
  call store args kwargs w = (Ok out, w') ->
  exists data value,
    bind_data args kwargs = Ok data /\ encode data = Ok value /\
    out = PyStr (next_key w) /\
    get (next_key w) None w' = (Ok (PyBytes value), w').
Proof.
  intros H. apply store_Ok_effects in H
    as (data & value & _ & _ & _ & Hb & Hv & -> & _ & _ & _ & _ & _ & _ & L & _).
  exists data, value. repeat split; try assumption.
  unfold get, bind, on_redis, Redis.get. rewrite L. unfold ret.
  now rewrite world_eta.
Qed.


Lemma store_each_effects calls : forall w outs w' c ins os,
  store_each str_repr float_repr calls w = (Ok outs, w') ->
  counter "Cache.store" (redis w) = Some c ->
  elements "Cache.store:inputs" (redis w) = Some ins ->
  elements "Cache.store:outputs" (redis w) = Some os ->
  length outs = length calls /\
  counter "Cache.store" (redis w') = Some (c + Z.of_nat (length calls)) /\
  elements "Cache.store:inputs" (redis w') =
    Some (ins ++ map (fun c => tuple_text c.1) calls)%list /\
  elements "Cache.store:outputs" (redis w') =
    Some (os ++ map str_text outs)%list /\
  Forall (fun out => exists i, out = PyStr (uuid_str i)) outs.
Proof.
  induction calls as [|[args kwargs] calls IH]; intros w outs w' c ins os H C I O.
  - injection H as <- <-. rewrite Z.add_0_r, !app_nil_r. auto.
  - cbn [store_each fst snd] in H.
    apply bind_Ok in H as (out & w1 & H1 & H).
    apply bind_Ok in H as (outs' & w2 & H2 & H).
    injection H as <- <-.
    apply store_Ok_effects in H1
      as (_ & _ & c' & ins' & os' & _ & _ & -> & C' & I' & O' & C1 & I1 & O1 & _).
    rewrite C in C'. injection C' as <-.
    rewrite I in I'. injection I' as <-.
    rewrite O in O'. injection O' as <-.
    destruct (IH _ _ _ _ _ _ H2 C1 I1 O1) as (L & C2 & I2 & O2 & U).
    split; [simpl; now rewrite L|].
    split; [rewrite C2; f_equal; simpl length; lia|].
    split; [rewrite I2; now rewrite <- app_assoc|].
    split; [rewrite O2; now rewrite <- app_assoc|].
    constructor; [|assumption]. unfold next_key. eauto.
Qed.


(** C4. After [n] successive successful calls of [store] on a backend
    that held no bookkeeping for it (no flush in between): the call
    counter of [store] equals [n]; the inputs and the outputs history
    both have length [n]; entry [i] of the inputs is [str] of the
    argument tuple of call [i], entry [i] of the outputs is [str] of
    the key call [i] returned. *)
Theorem store_counter_and_history calls (w0 : world) outs (w : world) :
  lookup_key "Cache.store" (redis w0) = None ->
  lookup_key "Cache.store:inputs" (redis w0) = None ->
  lookup_key "Cache.store:outputs" (redis w0) = None ->
  store_each str_repr float_repr calls w0 = (Ok outs, w) ->
  let n := length calls in
  exists inputs outputs,
    counter "Cache.store" (redis w) = Some (Z.of_nat n) /\
    (n <> 0%nat ->
     Redis.get "Cache.store" (redis w) = (Ok (Some (numeral (Z.of_nat n))), redis w)) /\
    lrange "Cache.store:inputs" 0 (-1) (redis w) = (Ok inputs, redis w) /\
    lrange "Cache.store:outputs" 0 (-1) (redis w) = (Ok outputs, redis w) /\
    length inputs = n /\ length outputs = n /\ length outs = n /\
    forall i c out,
      calls !! i = Some c -> outs !! i = Some out ->
      inputs !! i = Some (tuple_text c.1) /\
      outputs !! i = Some (str_text out).
Proof.
  intros L0 L1 L2 H n.
  assert (C : counter "Cache.store" (redis w0) = Some 0)
    by (unfold counter; now rewrite L0).
  assert (I : elements "Cache.store:inputs" (redis w0) = Some [])
    by (unfold elements; now rewrite L1).
  assert (O : elements "Cache.store:outputs" (redis w0) = Some [])
    by (unfold elements; now rewrite L2).
  destruct (store_each_effects _ _ _ _ _ _ _ H C I O) as (Len & C' & I' & O' & _).
  rewrite Z.add_0_l in C'. rewrite app_nil_l in I', O'.
  exists (map (fun c => tuple_text c.1) calls), (map str_text outs).
  split; [assumption|].
  split; [intros Hn; apply get_counter; [assumption|lia]|].
  split; [rewrite lrange_all; now rewrite I'|].
  split; [rewrite lrange_all; now rewrite O'|].
  split; [apply length_map|]. split; [rewrite length_map; assumption|].
  split; [assumption|].
  intros i c out Hc Ho. rewrite !list_lookup_fmap, Hc, Ho. auto.
Qed.


End WithInterpreter.

(** *** Reading *)

(** C5. For a key absent from the backend and for any conversion function
    [fn], pure or not, failing or not, [get] returns [None] and leaves the
    world as it was: [fn] is not invoked. *)
Theorem get_absent key (fn : option (string -> M world pyobj)) (w : world) :
  lookup_key key (redis w) = None ->
  get key fn w = (Ok PyNone, w).
Proof.
  intros L. unfold get, bind, on_redis, Redis.get. rewrite L. unfold ret.
  now rewrite world_eta.
Qed.

(** C6. For a key present in the backend whose bytes are not the text of
    an integer, [get_int] raises the [ValueError] of the conversion; no
    value is returned. *)
Theorem get_int_not_integer key (w : world) b ex :
  lookup_key key (redis w) = Some (Entry (RString b) ex) ->
  parse_int b = None ->
  get_int key w = (Raise ValueError, w).
Proof.
  intros L P. unfold get_int, get, bind, on_redis, Redis.get. rewrite L.
  unfold lift, int_of_bytes. rewrite P. now rewrite world_eta.
Qed.

(** *** replay *)

Lemma read_only_ret {A} (a : A) : read_only (ret a).
Proof. intros w. reflexivity. Qed.

Lemma read_only_lift {A} (r : result A) : read_only (lift r).
Proof. intros w. reflexivity. Qed.

Lemma read_only_print line : read_only (print line).
Proof. intros w. reflexivity. Qed.

Lemma read_only_bind {A B} (m : M world A) (k : A -> M world B) :
  read_only m -> (forall a, read_only (k a)) -> read_only (bind m k).
Proof.
  intros Hm Hk w. unfold bind. specialize (Hm w).
  destruct (m w) as [[a|e] w1]; simpl in *; [|assumption].
  now rewrite Hk.
Qed.

Lemma read_only_get k : read_only (on_redis (Redis.get k)).
Proof.
  intros w. unfold on_redis. pose proof (get_reads k (redis w)) as H.
  destruct (Redis.get k (redis w)). simpl in *. assumption.
Qed.

Lemma read_only_lrange k a b : read_only (on_redis (lrange k a b)).
Proof.
  intros w. unfold on_redis. pose proof (lrange_reads k a b (redis w)) as H.
  destruct (lrange k a b (redis w)). simpl in *. assumption.
Qed.

Lemma read_only_for_each {A} (xs : list A) (body : A -> M world unit) :
  (forall x, read_only (body x)) -> read_only (for_each xs body).
Proof.
  intros Hb. induction xs as [|x xs IH]; simpl.
  - apply read_only_ret.
  - apply read_only_bind; [apply Hb|intros _; apply IH].
Qed.

Lemma replay_read_only (method : pyfunc) : read_only (replay method).
Proof.
  unfold replay.
  apply read_only_bind; [apply read_only_get|intros call_count].
  apply read_only_bind; [apply read_only_lift|intros n].
  apply read_only_bind; [apply read_only_lift|intros count].
  apply read_only_bind; [apply read_only_print|intros _].
  apply read_only_bind; [apply read_only_lrange|intros inputs].
  apply read_only_bind; [apply read_only_lrange|intros outputs].
  apply read_only_for_each. intros io.
  apply read_only_bind; [apply read_only_lift|intros input_str].
  apply read_only_bind; [apply read_only_lift|intros output_str].
  apply read_only_print.
Qed.

(** The loop of [replay] on pairs that decode. *)
Lemma replay_loop name (ios : list (string * string)) : forall w,
  Forall (fun io => utf8_valid io.1 = true /\ utf8_valid io.2 = true) ios ->
  for_each ios (fun io =>
    input_str <- lift (decode_utf8 io.1) ;;
    output_str <- lift (decode_utf8 io.2) ;;
    print (name +:+ "(*" +:+ input_str +:+ ") -> " +:+ output_str)) w =
  (Ok tt, World (redis w) (urandom w) (drawn w)
                (stdout w ++ map (transcript_line name) ios)).
Proof.
  induction ios as [|[i o] ios IH]; intros w Hv.
  - simpl. unfold ret. now rewrite app_nil_r, world_eta.
  - inversion Hv as [|? ? [Hi Ho] Hv']; subst. simpl in Hi, Ho.
    cbn [for_each]. unfold bind at 1. unfold bind at 1. unfold bind at 1.
    unfold lift, decode_utf8. cbn [fst snd]. rewrite Hi, Ho.
    unfold print at 1. rewrite IH by assumption. cbn [redis urandom drawn stdout].
    unfold transcript_line at 2. cbn [fst snd map].
    now rewrite <- app_assoc.
Qed.

(** The count [replay] has read with [int] is one [str] writes. *)
Lemma int_or_0_str_int call_count n :
  int_or_0 call_count = Ok n -> str_int n = Ok (numeral n).
Proof.
  unfold int_or_0. destruct call_count as [b|]; [|now intros [= <-]].
  destruct (decide (b = "")); [now intros [= <-]|apply int_of_bytes_str_int].
Qed.

(** What [replay] prints when the counter and both histories are
    readable. *)
Lemma replay_prints (method : pyfunc) (w : world) call_count n ins outs :
  Redis.get (qualname method) (redis w) = (Ok call_count, redis w) ->
  int_or_0 call_count = Ok n ->
  elements (qualname method +:+ ":inputs") (redis w) = Some ins ->
  elements (qualname method +:+ ":outputs") (redis w) = Some outs ->
  Forall (fun io => utf8_valid io.1 = true /\ utf8_valid io.2 = true) (zip ins outs) ->
  replay method w =
    (Ok tt, World (redis w) (urandom w) (drawn w)
                  (stdout w ++ header (qualname method) n
                            :: map (transcript_line (qualname method)) (zip ins outs))).
Proof.
  intros G P I O V. unfold replay.
  unfold bind at 1. unfold on_redis at 1. rewrite G.
  unfold bind at 1. unfold lift at 1. rewrite P.
  unfold bind at 1. unfold lift at 1. rewrite (int_or_0_str_int _ _ P).
  unfold bind at 1. unfold print at 1.
  unfold bind at 1. unfold on_redis at 1. cbn [redis urandom drawn stdout].
  rewrite lrange_all, I.
  unfold bind at 1. unfold on_redis at 1. cbn [redis urandom drawn stdout].
  rewrite lrange_all, O.
  rewrite replay_loop by assumption. cbn [redis urandom drawn stdout].
  unfold header. now rewrite <- app_assoc.
Qed.

(** C7. [replay] reads the counter and the two histories of the function
    it is given and prints "<name> was called N times:" and then one line
    per (input, output) pair, zipped in recorded order, as many lines as
    the shorter history has entries; on a backend with nothing recorded
    for the function it prints a count of 0 and no other line; the server
    is left as it was. *)
Theorem replay_transcript (method : pyfunc) (w : world) :
  let name := qualname method in
  redis (replay method w).2 = redis w /\
  (forall call_count n ins outs,
      Redis.get name (redis w) = (Ok call_count, redis w) ->
      int_or_0 call_count = Ok n ->
      elements (name +:+ ":inputs") (redis w) = Some ins ->
      elements (name +:+ ":outputs") (redis w) = Some outs ->
      Forall (fun io => utf8_valid io.1 = true /\ utf8_valid io.2 = true)
             (zip ins outs) ->
      replay method w =
        (Ok tt, World (redis w) (urandom w) (drawn w)
                      (stdout w ++ header name n
                                :: map (transcript_line name) (zip ins outs))) /\
      length (zip ins outs) = Nat.min (length ins) (length outs)) /\
  (lookup_key name (redis w) = None ->
   lookup_key (name +:+ ":inputs") (redis w) = None ->
   lookup_key (name +:+ ":outputs") (redis w) = None ->
   replay method w =
     (Ok tt, World (redis w) (urandom w) (drawn w) (stdout w ++ [header name 0]))).
Proof.
  intros name. subst name.
  split; [apply replay_read_only|]. split.
  - intros call_count n ins outs G P I O V.
    split; [now apply (replay_prints method w call_count)|apply length_zip].
  - intros L0 L1 L2.
    apply (replay_prints method w None 0 [] []).
    + unfold Redis.get. now rewrite L0.
    + reflexivity.
    + unfold elements. now rewrite L1.
    + unfold elements. now rewrite L2.
    + constructor.
Qed.

(** The counter [INCR] maintains is the number [replay] reads. *)
Lemma int_or_0_counter k s n :
  counter k s = Some n ->
  exists call_count, Redis.get k s = (Ok call_count, s) /\ int_or_0 call_count = Ok n.
Proof.
  unfold counter, Redis.get.
  destruct (lookup_key k s) as [[[b|l] ex]|]; [|discriminate|].
  - intros P. apply string2ll_canonical in P as [-> R].
    eexists; split; [reflexivity|]. unfold int_or_0, int_of_bytes.
    pose proof (parse_int_numeral n (decimal_digits_64 n R)) as E.
    change (ll2string n) with (numeral n).
    destruct (decide (numeral n = "")) as [Z|_].
    + rewrite Z in E. discriminate E.
    + now rewrite E.
  - intros [= <-]. eexists; split; reflexivity.
Qed.

(** [get_int] on a key holding the text of an integer. *)
Lemma get_int_integer key (w : world) b ex z :
  lookup_key key (redis w) = Some (Entry (RString b) ex) ->
  parse_int b = Some z ->
  get_int key w = (Ok (PyInt z), w).
Proof.
  intros L P. unfold get_int, get, bind, on_redis, Redis.get. rewrite L.
  unfold lift, int_of_bytes. rewrite P. unfold ret. now rewrite world_eta.
Qed.

(** A new [Cache()] is ready for [store], whatever the server held. *)
Lemma init_ready (w : world) : ready "Cache.store" (redis (init w).2).
Proof.
  split; [exists 0; split; reflexivity|]. split; exists []; reflexivity.
Qed.

(** After [n] calls of [store] on a new cache, [replay] prints the count
    [n] and the [n] calls in order. *)
Lemma replay_after_store_each str_repr float_repr calls (w0 : world) outs (w : world) :
  lookup_key "Cache.store" (redis w0) = None ->
  lookup_key "Cache.store:inputs" (redis w0) = None ->
  lookup_key "Cache.store:outputs" (redis w0) = None ->
  store_each str_repr float_repr calls w0 = (Ok outs, w) ->
  Forall (fun c => utf8_valid (tuple_text str_repr float_repr c.1) = true) calls ->
  replay (store str_repr float_repr) w =
    (Ok tt, World (redis w) (urandom w) (drawn w)
       (stdout w ++ header "Cache.store" (Z.of_nat (length calls))
          :: map (transcript_line "Cache.store")
                 (zip (map (fun c => tuple_text str_repr float_repr c.1) calls)
                      (map (str_text str_repr float_repr) outs)))).
Proof.
  intros L0 L1 L2 H V.
  assert (C : counter "Cache.store" (redis w0) = Some 0)
    by (unfold counter; now rewrite L0).
  assert (I : elements "Cache.store:inputs" (redis w0) = Some [])
    by (unfold elements; now rewrite L1).
  assert (O : elements "Cache.store:outputs" (redis w0) = Some [])
    by (unfold elements; now rewrite L2).
  destruct (store_each_effects _ _ _ _ _ _ _ _ _ H C I O) as (Len & C' & I' & O' & U).
  rewrite Z.add_0_l in C'. rewrite app_nil_l in I', O'.
  destruct (int_or_0_counter _ _ _ C') as (call_count & G & P).
  apply (replay_prints (store str_repr float_repr) w call_count); try assumption.
  clear - V U Len. revert outs U Len.
  induction V as [|c calls Vc V IH]; intros outs U Len; [constructor|].
  destruct outs as [|out outs]; [discriminate Len|].
  inversion U as [|? ? [i ->] U']; subst. cbn [map zip zip_with].
  constructor.
  - split; [assumption|]. apply uuid_str_valid.
  - apply IH; [assumption|]. now injection Len.
Qed.

(** *** The properties on the scenarios *)

Lemma cache_ready : ready "Cache.store" (redis Scenario.cache).
Proof.
  split; [exists 0; split; reflexivity|].
  split; exists []; reflexivity.
Defined.

(** The scenario of the specification: [store("foo")] on a new cache. *)
Example store_foo :
  let outcome := call Scenario.store [PyStr "foo"] [] Scenario.cache in
  let key := "00000000-0000-4000-a545-f4914f6cdd1d" in
  outcome.1 = Ok (PyStr key) /\
  (get_str key outcome.2).1 = Ok (PyStr "foo") /\
  (Redis.get "Cache.store" (redis outcome.2)).1 = Ok (Some "1") /\
  (lrange "Cache.store:inputs" 0 (-1) (redis outcome.2)).1 = Ok ["('foo',)"] /\
  (lrange "Cache.store:outputs" 0 (-1) (redis outcome.2)).1 = Ok [key].
Proof. cbv zeta. repeat split; vm_compute; reflexivity. Qed.

(** A value of no accepted shape is refused by the client library after
    the call has been counted and its input recorded. *)
Example store_None :
  let outcome := call Scenario.store [PyNone] [] Scenario.cache in
  outcome.1 = Raise DataError /\
  aof (redis outcome.2)
  = [FLUSHDB; RPUSH "Cache.store:inputs" "(None,)"; INCR "Cache.store"].
Proof. cbv zeta. split; vm_compute; reflexivity. Qed.

Example replay_after_calls :
  stdout (replay Scenario.store Scenario.after_calls).2
  = [ "Cache.store was called 4 times:";
      "Cache.store(*('foo',)) -> 00000000-0000-4000-a545-f4914f6cdd1d";
      "Cache.store(*(b'bar',)) -> 9e3779b9-7f4a-4c16-98e2-b4f1ac5aa552";
      "Cache.store(*(42,)) -> 3c6ef372-fe94-482c-8c7f-755209486d87";
      "Cache.store(*()) -> daa66d2c-7ddf-4442-801c-35b2663635bc" ].
Proof. vm_compute. reflexivity. Qed.





Lemma store_counter_and_history_witness :
  exists inputs outputs,
    counter "Cache.store" (redis Scenario.after_calls) = Some 4 /\
    (4%nat <> 0%nat ->
     Redis.get "Cache.store" (redis Scenario.after_calls)
     = (Ok (Some (numeral 4)), redis Scenario.after_calls)) /\
    lrange "Cache.store:inputs" 0 (-1) (redis Scenario.after_calls)
    = (Ok inputs, redis Scenario.after_calls) /\
    lrange "Cache.store:outputs" 0 (-1) (redis Scenario.after_calls)
    = (Ok outputs, redis Scenario.after_calls) /\
    length inputs = 4%nat /\ length outputs = 4%nat /\
    length Scenario.returned = 4%nat /\
    forall i c out,
      Scenario.calls !! i = Some c -> Scenario.returned !! i = Some out ->
      inputs !! i = Some (tuple_text Scenario.ascii_repr Scenario.decimal_repr c.1) /\
      outputs !! i = Some (str_text Scenario.ascii_repr Scenario.decimal_repr out).
Proof.
  apply (store_counter_and_history Scenario.ascii_repr Scenario.decimal_repr
           Scenario.calls Scenario.cache Scenario.returned Scenario.after_calls).
  - reflexivity.
  - reflexivity.
  - reflexivity.
  - vm_compute. reflexivity.
Defined.

Lemma get_absent_witness :
  get "no-such-key" (Some (fun _ => raise ValueError)) Scenario.after_calls
  = (Ok PyNone, Scenario.after_calls).
Proof.
  apply (get_absent "no-such-key" (Some (fun _ => raise ValueError))
           Scenario.after_calls).
  vm_compute. reflexivity.
Defined.

Lemma get_int_not_integer_witness :
  get_int "name" Scenario.tampered = (Raise ValueError, Scenario.tampered).
Proof.
  apply (get_int_not_integer "name" Scenario.tampered "Ada" None).
  - vm_compute. reflexivity.
  - vm_compute. reflexivity.
Defined.

Lemma replay_transcript_witness :
  replay Scenario.f Scenario.tampered
  = (Ok tt,
     World (redis Scenario.tampered) (urandom Scenario.tampered)
           (drawn Scenario.tampered)
           ["f was called 3 times:"; "f(*(1,)) -> a"; "f(*(2,)) -> b"]) /\
  length (zip ["(1,)"; "(2,)"; "(3,)"] ["a"; "b"]) = 2%nat.
Proof.
  apply (proj1 (proj2 (replay_transcript Scenario.f Scenario.tampered))
           (Some "3") 3 ["(1,)"; "(2,)"; "(3,)"] ["a"; "b"]).
  - vm_compute. reflexivity.
  - vm_compute. reflexivity.
  - vm_compute. reflexivity.
  - vm_compute. reflexivity.
  - repeat constructor.
Defined.

End ExerciseFacts.

(** ** web.py *)

Module WebFacts.
Import Redis RedisFacts Web.

Lemma web_world_eta (w : world) : World (r w) (requests_made w) = w.
Proof. now destruct w. Qed.

Lemma count_cache_keys (u u' : string) : "count:" +:+ u <> "cache:" +:+ u'.
Proof. discriminate. Qed.

Lemma elapse_lookup dt w k e :
  lookup_key k (r (elapse dt w)) = Some e -> lookup_key k (r w) = Some e.
Proof.
  unfold lookup_key, elapse, Redis.elapse; simpl.
  destruct (db (r w) !! k) as [e'|]; [|discriminate].
  unfold expired. destruct (expire_at e') as [t|]; [|auto].
  destruct (Z.ltb_spec t (now (r w) + Z.of_N dt)); [discriminate|].
  intros [= <-]. rewrite (proj2 (Z.ltb_ge _ _)) by lia. reflexivity.
Qed.

Section Network.
Variable requests_get : string -> Z -> result response.

Abbreviation get_page := (Web.get_page requests_get).

Ltac run_get_page :=
  unfold Web.get_page, cache_page, count_url_access, get_page_body,
    bind, on_redis, lift, ret, Redis.get;
  cbn [r requests_made].

(** A hit answers from the cache and does nothing else. *)
Lemma get_page_hit url w b :
  hit url w b -> get_page url w = (decode_utf8 b, w).
Proof.
  intros (ex & L & Hb). run_get_page. rewrite L. cbn [r requests_made truthy].
  rewrite decide_False by assumption. now rewrite web_world_eta.
Qed.

(** A miss goes through the counter, then the network, then the cache. *)
Lemma get_page_miss url w :
  miss url w ->
  get_page url w =
  match incr ("count:" +:+ url) (r w) with
  | (Raise e, s) => (Raise e, World s (requests_made w))
  | (Ok _, s) =>
      match requests_get url (now s) with
      | Raise e => (Raise e, World s (requests_made w ++ [url]))
      | Ok resp =>
          (Ok (text resp),
           World (applied ("cache:" +:+ url)
                          (Entry (RString (text resp)) (Some (now s + 1000 * 10)))
                          (SETEX ("cache:" +:+ url) 10 (text resp)) s)
                 (requests_made w ++ [url]))
      end
  end.
Proof.
  intros [L | [ex L]]; run_get_page; rewrite L; cbn [r requests_made truthy].
  all: try rewrite decide_True by reflexivity.
  all: cbn [r requests_made].
  all: destruct (incr ("count:" +:+ url) (r w)) as [[n|e] s]; cbn [r requests_made];
    [|reflexivity].
  all: destruct (requests_get url (now s)) as [resp|e]; cbn [r requests_made];
    [|reflexivity].
  all: change (str_int 10) with (@Ok string "10"); cbv beta iota.
  all: now rewrite setex_10.
Qed.

(** A miss whose counter step is accepted: the URL is requested, and
    the answer decides the rest. *)
Lemma get_page_miss_Ok url w c resp :
  miss url w ->
  counter ("count:" +:+ url) (r w) = Some c -> c < LLONG_MAX ->
  requests_get url (now (r w)) = Ok resp ->
  exists w',
    get_page url w = (Ok (text resp), w') /\
    requests_made w' = (requests_made w ++ [url])%list /\
    now (r w') = now (r w) /\
    aof (r w') = (aof (r w) ++ [INCR ("count:" +:+ url);
                                SETEX ("cache:" +:+ url) 10 (text resp)])%list /\
    db (r w') !! ("cache:" +:+ url)
      = Some (Entry (RString (text resp)) (Some (now (r w) + 10000))) /\
    counter ("count:" +:+ url) (r w') = Some (c + 1).
Proof.
  intros Hm Hc Hlt Hget.
  destruct (incr_succeeds _ _ _ Hc Hlt) as (s & Hi).
  pose proof (incr_Ok _ _ _ _ Hi) as (_ & _ & C1 & (T1 & A1 & D1)).
  rewrite (get_page_miss url w Hm), Hi, T1, Hget.
  eexists; split; [reflexivity|]. cbn [r requests_made].
  split; [reflexivity|]. unfold applied; cbn [now aof db].
  split; [assumption|].
  split; [rewrite A1; now rewrite <- app_assoc|].
  split; [rewrite lookup_insert_eq; do 3 f_equal; lia|].
  unfold counter, lookup_key in *. cbn [db now] in *.
  rewrite lookup_insert_ne by (symmetry; apply count_cache_keys).
  assumption.
Qed.

Lemma get_page_miss_Raise url w c e :
  miss url w ->
  counter ("count:" +:+ url) (r w) = Some c -> c < LLONG_MAX ->
  requests_get url (now (r w)) = Raise e ->
  exists w',
    get_page url w = (Raise e, w') /\
    requests_made w' = (requests_made w ++ [url])%list /\
    now (r w') = now (r w) /\
    aof (r w') = (aof (r w) ++ [INCR ("count:" +:+ url)])%list /\
    db (r w') !! ("cache:" +:+ url) = db (r w) !! ("cache:" +:+ url) /\
    counter ("count:" +:+ url) (r w') = Some (c + 1).
Proof.
  intros Hm Hc Hlt Hget.
  destruct (incr_succeeds _ _ _ Hc Hlt) as (s & Hi).
  pose proof (incr_Ok _ _ _ _ Hi) as (_ & _ & C1 & (T1 & A1 & D1)).
  rewrite (get_page_miss url w Hm), Hi, T1, Hget.
  eexists; split; [reflexivity|]. cbn [r requests_made].
  split; [reflexivity|]. split; [assumption|]. split; [assumption|].
  split; [|assumption].
  apply D1. intros E. symmetry in E. now apply count_cache_keys in E.
Qed.

(** A miss whose counter step is refused stops there. *)
Lemma get_page_miss_refused url w e s :
  miss url w -> incr ("count:" +:+ url) (r w) = (Raise e, s) ->
  get_page url w = (Raise e, w).
Proof.
  intros Hm Hi. rewrite (get_page_miss url w Hm), Hi.
  apply incr_Raise in Hi as ->. now rewrite web_world_eta.
Qed.

(** What is in the cache is either a hit, a miss, or a list. *)
Lemma hit_or_miss url w :
  (exists b, hit url w b) \/ miss url w \/
  exists l ex, lookup_key ("cache:" +:+ url) (r w) = Some (Entry (RList l) ex).
Proof.
  unfold hit, miss.
  destruct (lookup_key ("cache:" +:+ url) (r w)) as [[[b|l] ex]|]; [| |eauto].
  - destruct (decide (b = "")) as [->|Hb]; eauto 6.
  - eauto 6.
Qed.

Lemma get_page_wrongtype url w l ex :
  lookup_key ("cache:" +:+ url) (r w) = Some (Entry (RList l) ex) ->
  get_page url w = (Raise (ResponseError WRONGTYPE), w).
Proof.
  intros L. run_get_page. rewrite L. now rewrite web_world_eta.
Qed.

(** The two ways [get_page] returns a page. *)
Lemma get_page_Ok_inv url w body w' :
  get_page url w = (Ok body, w') ->
  (hit url w body /\ utf8_valid body = true /\ w' = w) \/
  (miss url w /\
   requests_made w' = (requests_made w ++ [url])%list /\
   now (r w') = now (r w) /\
   db (r w') !! ("cache:" +:+ url)
     = Some (Entry (RString body) (Some (now (r w) + 10000))) /\
   exists resp, requests_get url (now (r w)) = Ok resp /\ text resp = body).
Proof.
  intros H.
  destruct (hit_or_miss url w) as [[b Hh] | [Hm | (l & ex & L)]].
  - rewrite (get_page_hit _ _ _ Hh) in H. unfold decode_utf8 in H.
    destruct (utf8_valid b) eqn:V; [|discriminate].
    injection H as <- <-. left. auto.
  - right. split; [assumption|].
    rewrite (get_page_miss _ _ Hm) in H.
    destruct (incr ("count:" +:+ url) (r w)) as [[n|e] s] eqn:Hi; [|discriminate].
    apply incr_Ok in Hi as (_ & _ & _ & (T1 & _ & _)).
    rewrite T1 in H.
    destruct (requests_get url (now (r w))) as [resp|e]; [|discriminate].
    injection H as <- <-. cbn [r requests_made]. unfold applied; cbn [now db].
    split; [reflexivity|]. split; [assumption|].
    split; [rewrite lookup_insert_eq; do 3 f_equal; lia|eauto].
  - rewrite (get_page_wrongtype _ _ _ _ L) in H. discriminate.
Qed.

Lemma lookup_after dt w k e :
  db (r w) !! k = Some e ->
  lookup_key k (r (elapse dt w)) <> None ->
  lookup_key k (r (elapse dt w)) = Some e.
Proof.
  unfold lookup_key, elapse, Redis.elapse; cbn [r db now]. intros ->.
  destruct (expired _ e); congruence.
Qed.

Lemma lookup_db k s e : lookup_key k s = Some e -> db s !! k = Some e.
Proof.
  unfold lookup_key. destruct (db s !! k) as [e'|]; [|discriminate].
  destruct (expired (now s) e'); congruence.
Qed.


(** C10. When the body cached for a URL is the empty string, a call of
    [get_page] while the entry is live treats it as a miss: the page
    is requested again and the entry is rewritten; a cached body is
    returned from the cache only when it is not empty. *)
Theorem get_page_empty_body url w :
  (forall ex c resp,
      lookup_key ("cache:" +:+ url) (r w) = Some (Entry (RString "") ex) ->
      counter ("count:" +:+ url) (r w) = Some c -> c < LLONG_MAX ->
      requests_get url (now (r w)) = Ok resp ->
      exists w',
        get_page url w = (Ok (text resp), w') /\
        requests_made w' = (requests_made w ++ [url])%list /\
        aof (r w') = (aof (r w) ++ [INCR ("count:" +:+ url);
                                    SETEX ("cache:" +:+ url) 10 (text resp)])%list /\
        db (r w') !! ("cache:" +:+ url)
          = Some (Entry (RString (text resp)) (Some (now (r w) + 10000)))) /\
  (forall ex b,
      lookup_key ("cache:" +:+ url) (r w) = Some (Entry (RString b) ex) ->
      b <> "" -> utf8_valid b = true ->
      get_page url w = (Ok b, w)).
Proof.
  split.
  - intros ex c resp L Hc Hlt Hget.
    assert (Hm : miss url w) by (right; eauto).
    destruct (get_page_miss_Ok _ _ _ _ Hm Hc Hlt Hget)
      as (w' & H & Rq & _ & A & D & _).
    eauto 6.
  - intros ex b L Hb V.
    rewrite (get_page_hit url w b) by (exists ex; auto).
    unfold decode_utf8. now rewrite V.
Qed.

(** C2, as the code has it.  A second call of [get_page] made while the
    entry cached for the URL is live returns the content of the first
    call without requesting the page, provided that content is not
    empty; an entry written by the first call is live for 10 seconds;
    a second call made later than that requests the page again and
    stores the answer with an expiration of 10 seconds. *)
Theorem get_page_second_call url w0 body w1 dt :
  get_page url w0 = (Ok body, w1) ->
  (body <> "" -> utf8_valid body = true ->
   lookup_key ("cache:" +:+ url) (r (elapse dt w1)) <> None ->
   get_page url (elapse dt w1) = (Ok body, elapse dt w1)) /\
  (requests_made w1 <> requests_made w0 -> (dt <= 10000)%N ->
   lookup_key ("cache:" +:+ url) (r (elapse dt w1)) <> None) /\
  (requests_made w1 <> requests_made w0 -> (10000 < dt)%N ->
   forall c resp,
     counter ("count:" +:+ url) (r (elapse dt w1)) = Some c -> c < LLONG_MAX ->
     requests_get url (now (r (elapse dt w1))) = Ok resp ->
     exists w2,
       get_page url (elapse dt w1) = (Ok (text resp), w2) /\
       requests_made w2 = (requests_made w1 ++ [url])%list /\
       aof (r w2) = (aof (r w1) ++ [INCR ("count:" +:+ url);
                                    SETEX ("cache:" +:+ url) 10 (text resp)])%list /\
       db (r w2) !! ("cache:" +:+ url)
         = Some (Entry (RString (text resp))
                       (Some (now (r w1) + Z.of_N dt + 10000)))).
Proof.
  intros H.
  assert (Hdb : exists ex, db (r w1) !! ("cache:" +:+ url)
                           = Some (Entry (RString body) ex) /\
                (requests_made w1 <> requests_made w0 ->
                 ex = Some (now (r w1) + 10000))).
  { apply get_page_Ok_inv in H
      as [((ex & L & _) & _ & ->) | (_ & Rq & T & D & _)].
    - exists ex. split; [now apply lookup_db|congruence].
    - eexists. split; [exact D|]. intros _. now rewrite T. }
  destruct Hdb as (ex & D & Hex).
  split; [|split].
  - intros Hb V Live.
    rewrite (get_page_hit url (elapse dt w1) body).
    + unfold decode_utf8. now rewrite V.
    + exists ex. split; [|assumption]. now apply lookup_after.
  - intros Hreq Hdt. rewrite (Hex Hreq) in D.
    unfold lookup_key, elapse, Redis.elapse; cbn [r db now]. rewrite D.
    unfold expired; cbn [expire_at].
    rewrite (proj2 (Z.ltb_ge _ _)) by lia. discriminate.
  - intros Hreq Hdt c resp Hc Hlt Hget. rewrite (Hex Hreq) in D.
    assert (Hm : miss url (elapse dt w1)).
    { left. unfold lookup_key, elapse, Redis.elapse; cbn [r db now]. rewrite D.
      unfold expired; cbn [expire_at].
      now rewrite (proj2 (Z.ltb_lt _ _)) by lia. }
    destruct (get_page_miss_Ok _ _ _ _ Hm Hc Hlt Hget)
      as (w2 & H2 & Rq & _ & A & D2 & _).
    exists w2. split; [assumption|]. split; [assumption|]. split; [assumption|].
    rewrite D2. cbn [elapse Redis.elapse r now]. reflexivity.
Qed.

(** C1, as the code has it.  [get_page] increments the access counter
    of the URL when, and only when, the cache lookup misses: after the
    lookup, before the request, whether the request then succeeds or
    not.  On a hit it writes nothing.  Three calls for a page whose
    body is not empty, two within the expiration window and one after
    it, leave the counter at 2. *)
Theorem get_page_counts_misses url w :
  (forall b, hit url w b -> (get_page url w).2 = w) /\
  (miss url w ->
   forall c, counter ("count:" +:+ url) (r w) = Some c -> c < LLONG_MAX ->
   counter ("count:" +:+ url) (r (get_page url w).2) = Some (c + 1) /\
   requests_made (get_page url w).2 = (requests_made w ++ [url])%list) /\
  (miss url w ->
   forall e s, incr ("count:" +:+ url) (r w) = (Raise e, s) ->
   get_page url w = (Raise e, w)) /\
  (lookup_key ("cache:" +:+ url) (r w) = None ->
   lookup_key ("count:" +:+ url) (r w) = None ->
   forall resp d1 d2,
     requests_get url (now (r w)) = Ok resp -> text resp <> "" ->
     (d1 <= 10000)%N -> (10000 < d1 + d2)%N ->
     counter ("count:" +:+ url) (r (three_calls requests_get url d1 d2 w)) = Some 2).
Proof.
  split; [|split; [|split]].
  - intros b Hh. now rewrite (get_page_hit _ _ _ Hh).
  - intros Hm c Hc Hlt.
    destruct (requests_get url (now (r w))) as [resp|e] eqn:Hget.
    + destruct (get_page_miss_Ok _ _ _ _ Hm Hc Hlt Hget) as (w' & -> & Rq & _ & _ & _ & C).
      auto.
    + destruct (get_page_miss_Raise _ _ _ _ Hm Hc Hlt Hget) as (w' & -> & Rq & _ & _ & _ & C).
      auto.
  - intros Hm e s Hi. now apply (get_page_miss_refused _ _ _ s).
  - intros Lc Ln resp d1 d2 Hget Hbody Hd1 Hd2.
    unfold three_calls.
    (* first call: a miss, the counter is created *)
    rewrite (get_page_miss url w) by (left; assumption).
    unfold incr at 1. rewrite Ln. cbn [applied now]. rewrite Hget. cbn [snd].
    set (s1 := applied ("cache:" +:+ url) _ _ _).
    set (w1 := World s1 (requests_made w ++ [url])).
    assert (R1 : r w1 = s1) by reflexivity.
    assert (D1 : db s1 !! ("cache:" +:+ url)
                 = Some (Entry (RString (text resp)) (Some (now (r w) + 1000 * 10))))
      by (subst s1; unfold applied; cbn [db]; apply lookup_insert_eq).
    assert (N1 : db s1 !! ("count:" +:+ url)
                 = Some (Entry (RString (ll2string 1)) None)).
    { subst s1; unfold applied; cbn [db].
      rewrite lookup_insert_ne by (symmetry; apply count_cache_keys).
      apply lookup_insert_eq. }
    assert (T1 : now s1 = now (r w)) by reflexivity.
    (* second call: a hit, nothing is written *)
    rewrite (get_page_hit url (elapse d1 w1) (text resp)).
    2:{ exists (Some (now (r w) + 1000 * 10)). split; [|assumption].
        unfold lookup_key, elapse, Redis.elapse; cbn [r db now]. rewrite R1, D1.
        unfold expired; cbn [expire_at]. rewrite T1.
        now rewrite (proj2 (Z.ltb_ge _ _)) by lia. }
    cbn [snd].
    (* third call: the entry has expired *)
    rewrite (get_page_miss url (elapse d2 (elapse d1 w1))).
    2:{ left. unfold lookup_key, elapse, Redis.elapse; cbn [r db now]. rewrite R1, D1.
        unfold expired; cbn [expire_at]. rewrite T1.
        now rewrite (proj2 (Z.ltb_lt _ _)) by lia. }
    unfold incr at 1. unfold lookup_key at 1.
    unfold elapse, Redis.elapse; cbn [r db now]. rewrite R1, N1.
    unfold expired at 1; cbn [expire_at].
    change (string2ll (ll2string 1)) with (Some 1). cbv beta iota.
    change (LLONG_MAX <=? 1) with false. cbv beta iota.
    unfold applied; cbn [db now aof].
    match goal with
    | |- context [requests_get url ?t] => destruct (requests_get url t) as [resp3|e3]
    end; cbn [snd r]; unfold counter, lookup_key; cbn [db now].
    + rewrite lookup_insert_ne by (symmetry; apply count_cache_keys).
      rewrite lookup_insert_eq. reflexivity.
    + rewrite lookup_insert_eq. reflexivity.
Qed.

End Network.

(** *** The properties on the scenarios *)

(** A response with an error status is a response: its body is returned
    and cached like any other. *)
Example error_status_is_cached :
  let outcome := Web.get_page Scenario.network "http://x/gone" Scenario.web in
  outcome.1 = Ok "Not Found" /\
  aof (r outcome.2)
  = [INCR "count:http://x/gone"; SETEX "cache:http://x/gone" 10 "Not Found"].
Proof. cbv zeta. split; vm_compute; reflexivity. Qed.

Lemma get_page_counts_misses_witness :
  counter "count:http://x/a"
          (r (three_calls Scenario.network "http://x/a" 5000 6000 Scenario.web))
  = Some 2.
Proof.
  apply (proj2 (proj2 (proj2
           (get_page_counts_misses Scenario.network "http://x/a" Scenario.web)))
           eq_refl eq_refl (Response 200 "<p>0</p>") 5000%N 6000%N).
  - reflexivity.
  - discriminate.
  - discriminate.
  - reflexivity.
Defined.

(** C1 as the specification states it fails: a call answered from the
    cache leaves the access counter where it was, and the three calls of
    the specification's scenario (at 0, 5 and 11 seconds) leave it at 2,
    not 3. *)
Lemma get_page_counts_every_call_counterexample :
  let url := "http://x/a" in
  let w1 := Scenario.web_a in
  let w2 := (Web.get_page Scenario.network url (elapse 5000 w1)).2 in
  let w3 := (Web.get_page Scenario.network url (elapse 6000 w2)).2 in
  ~ (forall url w c,
        counter ("count:" +:+ url) (r w) = Some c -> c < LLONG_MAX ->
        counter ("count:" +:+ url) (r (Web.get_page Scenario.network url w).2)
        = Some (c + 1)) /\
  (Redis.get "count:http://x/a" (r w1)).1 = Ok (Some "1") /\
  (Redis.get "count:http://x/a" (r w2)).1 = Ok (Some "1") /\
  (Redis.get "count:http://x/a" (r w3)).1 = Ok (Some "2") /\
  requests_made w3 = [url; url].
Proof.
  cbv zeta. split; [|repeat split; vm_compute; reflexivity].
  intros Claim.
  specialize (Claim "http://x/a" (elapse 5000 Scenario.web_a) 1 eq_refl eq_refl).
  vm_compute in Claim. discriminate Claim.
Qed.

Lemma get_page_second_call_witness :
  Web.get_page Scenario.network "http://x/a" (elapse 5000 Scenario.web_a)
  = (Ok "<p>0</p>", elapse 5000 Scenario.web_a) /\
  exists w2,
    Web.get_page Scenario.network "http://x/a" (elapse 11000 Scenario.web_a)
    = (Ok "<p>11000</p>", w2) /\
    requests_made w2 = ["http://x/a"; "http://x/a"] /\
    aof (r w2) = [INCR "count:http://x/a"; SETEX "cache:http://x/a" 10 "<p>0</p>";
                  INCR "count:http://x/a"; SETEX "cache:http://x/a" 10 "<p>11000</p>"] /\
    db (r w2) !! "cache:http://x/a"
    = Some (Entry (RString "<p>11000</p>") (Some 21000)).
Proof.
  split.
  - apply (proj1 (get_page_second_call Scenario.network "http://x/a" Scenario.web
                    "<p>0</p>" Scenario.web_a 5000 eq_refl)).
    + discriminate.
    + reflexivity.
    + discriminate.
  - apply (proj2 (proj2 (get_page_second_call Scenario.network "http://x/a"
                           Scenario.web "<p>0</p>" Scenario.web_a 11000 eq_refl))
             ltac:(discriminate) eq_refl 1 (Response 200 "<p>11000</p>")).
    + reflexivity.
    + reflexivity.
    + reflexivity.
Defined.

(** C2 as the specification states it fails: with an empty body in the
    cache, a second call made while the entry is live requests the page
    again and returns what the network now answers. *)
Lemma get_page_cached_empty_counterexample :
  let url := "http://x/empty" in
  let w1 := (Web.get_page Scenario.network url Scenario.web).2 in
  ~ (forall url w0 body w1 dt,
        Web.get_page Scenario.network url w0 = (Ok body, w1) ->
        lookup_key ("cache:" +:+ url) (r (elapse dt w1)) <> None ->
        Web.get_page Scenario.network url (elapse dt w1) = (Ok body, elapse dt w1)) /\
  (Web.get_page Scenario.network url Scenario.web).1 = Ok "" /\
  lookup_key ("cache:" +:+ url) (r (elapse 2000 w1))
  = Some (Entry (RString "") (Some 10000)) /\
  (Web.get_page Scenario.network url (elapse 2000 w1)).1 = Ok "late" /\
  requests_made (Web.get_page Scenario.network url (elapse 2000 w1)).2 = [url; url].
Proof.
  cbv zeta. split; [|repeat split; vm_compute; reflexivity].
  intros Claim.
  specialize (Claim "http://x/empty" Scenario.web ""
                    (Web.get_page Scenario.network "http://x/empty" Scenario.web).2
                    2000%N eq_refl ltac:(discriminate)).
  vm_compute in Claim. discriminate Claim.
Qed.


Lemma get_page_empty_body_witness :
  exists w',
    Web.get_page Scenario.network "http://x/empty" Scenario.web_empty = (Ok "late", w') /\
    requests_made w' = ["http://x/empty"; "http://x/empty"] /\
    aof (r w') = [INCR "count:http://x/empty"; SETEX "cache:http://x/empty" 10 "";
                  INCR "count:http://x/empty"; SETEX "cache:http://x/empty" 10 "late"] /\
    db (r w') !! "cache:http://x/empty" = Some (Entry (RString "late") (Some 12000)).
Proof.
  apply (proj1 (get_page_empty_body Scenario.network "http://x/empty" Scenario.web_empty)
           (Some 10000) 1 (Response 200 "late")).
  - reflexivity.
  - reflexivity.
  - reflexivity.
  - reflexivity.
Defined.

End WebFacts.

(** ** exercise.py, further properties *)

Module CacheFacts.
Import Redis PyFacts RedisFacts Exercise ExerciseFacts.

Section WithInterpreter.
Variable str_repr : string -> string.
Variable float_repr : spec_float -> string.

Abbreviation store := (Exercise.store str_repr float_repr).
Abbreviation encode := (Exercise.encode float_repr).
Abbreviation str_tuple := (Exercise.str_tuple str_repr float_repr).

(** X1. Text stored with [store] comes back from [get_str] as the same
    text. *)
Theorem store_get_str_roundtrip args kwargs (s : string) (w : world) :
  bind_data args kwargs = Ok (PyStr s) -> utf8_valid s = true ->
  ready "Cache.store" (redis w) ->
  exists key w',
    call store args kwargs w = (Ok (PyStr key), w') /\
    get_str key w' = (Ok (PyStr s), w').
Proof.
  intros Hb V Hr.
  destruct (store_succeeds str_repr float_repr _ _ _ _ s Hb eq_refl Hr) as [w' Hs].
  exists (next_key w), w'. split; [assumption|].
  apply store_Ok_effects in Hs
    as (d & value & _ & _ & _ & Hb' & Hv & _ & _ & _ & _ & _ & _ & _ & L & _).
  rewrite Hb in Hb'. injection Hb' as <-. injection Hv as <-.
  unfold get_str, get, bind, on_redis, Redis.get. rewrite L.
  unfold lift, decode_utf8. rewrite V. unfold ret. now rewrite world_eta.
Qed.

(** X2. An integer of at most 4300 decimal digits stored with [store]
    comes back from [get_int] as the same integer, whatever its sign:
    [int] reads back the numeral the client library wrote. *)
Theorem store_get_int_roundtrip args kwargs (z : Z) (w : world) :
  bind_data args kwargs = Ok (PyInt z) ->
  decimal_digits z <= max_str_digits ->
  ready "Cache.store" (redis w) ->
  exists key w',
    call store args kwargs w = (Ok (PyStr key), w') /\
    get_int key w' = (Ok (PyInt z), w').
Proof.
  intros Hb Hz Hr.
  destruct (store_succeeds str_repr float_repr _ _ _ _ (numeral z) Hb
              (str_int_short z Hz) Hr) as [w' Hs].
  exists (next_key w), w'. split; [assumption|].
  apply store_Ok_effects in Hs
    as (d & value & _ & _ & _ & Hb' & Hv & _ & _ & _ & _ & _ & _ & _ & L & _).
  rewrite Hb in Hb'. injection Hb' as <-.
  cbn [Exercise.encode] in Hv. rewrite (str_int_short z Hz) in Hv. injection Hv as <-.
  apply (get_int_integer _ _ _ _ _ L). now apply parse_int_numeral.
Qed.

(** X3. Bytes that are not UTF-8 are stored and returned by [get] as they
    are, and [get_str] of their key raises [UnicodeDecodeError]. *)
Theorem store_bytes_get_str_undecodable args kwargs (b : string) (w : world) :
  bind_data args kwargs = Ok (PyBytes b) -> utf8_valid b = false ->
  ready "Cache.store" (redis w) ->
  exists key w',
    call store args kwargs w = (Ok (PyStr key), w') /\
    get key None w' = (Ok (PyBytes b), w') /\
    get_str key w' = (Raise UnicodeDecodeError, w').
Proof.
  intros Hb V Hr.
  destruct (store_succeeds str_repr float_repr _ _ _ _ b Hb eq_refl Hr) as [w' Hs].
  exists (next_key w), w'. split; [assumption|].
  apply store_Ok_effects in Hs
    as (d & value & _ & _ & _ & Hb' & Hv & _ & _ & _ & _ & _ & _ & _ & L & _).
  rewrite Hb in Hb'. injection Hb' as <-. injection Hv as <-.
  unfold get_str, get, bind, on_redis, Redis.get. rewrite L.
  unfold lift, decode_utf8. rewrite V. unfold ret. now rewrite world_eta.
Qed.





(** X6. Whatever its outcome, a call of [store] touches four keys at
    most: the key it generates and the three bookkeeping keys.  Every
    other key of the server, the values stored by earlier calls among
    them, keeps its content and its expiry, and the clock is not moved. *)
Theorem store_leaves_other_keys args kwargs (w : world) (k : string) :
  k <> next_key w -> k <> "Cache.store" ->
  k <> "Cache.store:inputs" -> k <> "Cache.store:outputs" ->
  db (redis (call store args kwargs w).2) !! k = db (redis w) !! k /\
  now (redis (call store args kwargs w).2) = now (redis w).
Proof.
  intros Kk K0 K1 K2. rewrite call_store.
  destruct (str_tuple args) as [input|e0]; [|auto].
  destruct (rpush "Cache.store:inputs" input (redis w))
    as [[n1|e1] s1] eqn:E1.
  2:{ apply rpush_Raise in E1 as ->. cbn [snd redis]. auto. }
  pose proof (rpush_Ok _ _ _ _ _ E1) as (_ & _ & _ & _ & (T1 & _ & D1)).
  destruct (incr "Cache.store" s1) as [[n2|e2] s2] eqn:E2.
  2:{ apply incr_Raise in E2 as ->. cbn [snd redis].
      split; [now apply D1|assumption]. }
  pose proof (incr_Ok _ _ _ _ E2) as (_ & _ & _ & (T2 & _ & D2)).
  destruct (bind_data args kwargs) as [data|e]; cbn [snd redis].
  2:{ split; [rewrite D2, D1; auto|congruence]. }
  destruct (encode data) as [value|e]; cbn [snd redis].
  2:{ split; [rewrite D2, D1; auto|congruence]. }
  cbv zeta.
  destruct (rpush "Cache.store:outputs" (next_key w) _) as [[n4|e4] s4] eqn:E4;
    cbn [snd redis].
  - apply rpush_Ok in E4 as (_ & _ & _ & _ & (T4 & _ & D4)).
    split.
    + rewrite D4 by assumption. unfold applied; cbn [db].
      rewrite lookup_insert_ne by congruence. rewrite D2, D1; auto.
    + rewrite T4. unfold applied; cbn [now]. congruence.
  - apply rpush_Raise in E4 as ->. unfold applied; cbn [db now].
    split; [|congruence].
    rewrite lookup_insert_ne by congruence. rewrite D2, D1; auto.
Qed.

End WithInterpreter.

(** X7. A new [Cache()] wipes the server: whatever it held, every key is
    then absent for [get] under any conversion function, and [replay] of
    any function reports 0 calls and lists none. *)
Theorem init_wipes (w : world) :
  (init w).1 = Ok tt /\
  aof (redis (init w).2) = (aof (redis w) ++ [FLUSHDB])%list /\
  (forall key fn, get key fn (init w).2 = (Ok PyNone, (init w).2)) /\
  (forall method,
      replay method (init w).2
      = (Ok tt, World (redis (init w).2) (urandom w) (drawn w)
                      (stdout w ++ [header (qualname method) 0]))).
Proof.
  assert (L : forall k, lookup_key k (redis (init w).2) = None).
  { intros k. unfold lookup_key, init, on_redis, flushdb. cbn [snd redis db].
    now rewrite lookup_empty. }
  split; [reflexivity|]. split; [reflexivity|]. split.
  - intros key fn. unfold get, bind, on_redis, Redis.get. rewrite L.
    unfold ret. now rewrite world_eta.
  - intros method.
    rewrite (replay_prints method (init w).2 None 0 [] []); [reflexivity|..].
    + unfold Redis.get. now rewrite L.
    + reflexivity.
    + unfold elements. now rewrite L.
    + unfold elements. now rewrite L.
    + constructor.
Qed.

Section Histories.
Variable str_repr : string -> string.
Variable float_repr : spec_float -> string.

Abbreviation store_each := (Exercise.store_each str_repr float_repr).


(** X9. After any number of successful calls of [store] on a new cache,
    [replay(store)] prints the number of calls and then one line per
    call, in call order, pairing the text of the call's arguments with
    the key the call returned. *)
Theorem replay_after_stores calls (w : world) outs (w' : world) :
  store_each calls (init w).2 = (Ok outs, w') ->
  Forall (fun c => utf8_valid (tuple_text str_repr float_repr c.1) = true) calls ->
  replay (store str_repr float_repr) w' =
    (Ok tt, World (redis w') (urandom w') (drawn w')
       (stdout w' ++ header "Cache.store" (Z.of_nat (length calls))
          :: map (transcript_line "Cache.store")
                 (zip (map (fun c => tuple_text str_repr float_repr c.1) calls)
                      (map (str_text str_repr float_repr) outs)))).
Proof.
  intros H V.
  assert (L : forall k, lookup_key k (redis (init w).2) = None).
  { intros k. unfold lookup_key, init, on_redis, flushdb. cbn [snd redis db].
    now rewrite lookup_empty. }
  now apply (replay_after_store_each str_repr float_repr calls (init w).2 outs w').
Qed.

End Histories.

(** *** replay on histories it cannot read *)

(** The loop of [replay] stops at the first pair that does not decode. *)
Lemma replay_loop_stops name (pre : list (string * string)) io rest : forall w,
  Forall (fun io => utf8_valid io.1 = true /\ utf8_valid io.2 = true) pre ->
  utf8_valid io.1 = false \/ utf8_valid io.2 = false ->
  for_each (pre ++ io :: rest) (fun io =>
    input_str <- lift (decode_utf8 io.1) ;;
    output_str <- lift (decode_utf8 io.2) ;;
    print (name +:+ "(*" +:+ input_str +:+ ") -> " +:+ output_str)) w =
  (Raise UnicodeDecodeError,
   World (redis w) (urandom w) (drawn w) (stdout w ++ map (transcript_line name) pre)).
Proof.
  induction pre as [|[i o] pre IH]; intros w Hv Hbad.
  - cbn [app for_each map]. unfold bind at 1. unfold bind at 1.
    unfold lift, decode_utf8. rewrite app_nil_r, world_eta.
    destruct Hbad as [-> | Hbad]; [reflexivity|].
    destruct (utf8_valid io.1); [|reflexivity]. unfold bind. now rewrite Hbad.
  - inversion Hv as [|? ? [Hi Ho] Hv']; subst. simpl in Hi, Ho.
    cbn [app for_each]. unfold bind at 1. unfold bind at 1. unfold bind at 1.
    unfold lift, decode_utf8. cbn [fst snd]. rewrite Hi, Ho.
    unfold print at 1. rewrite IH by assumption. cbn [redis urandom drawn stdout].
    unfold transcript_line at 2. cbn [fst snd map].
    now rewrite <- app_assoc.
Qed.

(** X10. [replay] decodes the pairs one at a time as it prints: when pair
    [i] holds bytes that are not UTF-8, the header and the lines of the
    [i] pairs before it have been printed when [UnicodeDecodeError]
    reaches the caller. *)
Theorem replay_stops_at_undecodable (method : pyfunc) (w : world)
        call_count n ins outs (i : nat) io :
  Redis.get (qualname method) (redis w) = (Ok call_count, redis w) ->
  int_or_0 call_count = Ok n ->
  elements (qualname method +:+ ":inputs") (redis w) = Some ins ->
  elements (qualname method +:+ ":outputs") (redis w) = Some outs ->
  zip ins outs !! i = Some io ->
  Forall (fun io => utf8_valid io.1 = true /\ utf8_valid io.2 = true)
         (take i (zip ins outs)) ->
  utf8_valid io.1 = false \/ utf8_valid io.2 = false ->
  replay method w =
    (Raise UnicodeDecodeError,
     World (redis w) (urandom w) (drawn w)
           (stdout w ++ header (qualname method) n
                     :: map (transcript_line (qualname method)) (take i (zip ins outs)))).
Proof.
  intros G P I O Hi V Hbad. unfold replay.
  unfold bind at 1. unfold on_redis at 1. rewrite G.
  unfold bind at 1. unfold lift at 1. rewrite P.
  unfold bind at 1. unfold lift at 1. rewrite (int_or_0_str_int _ _ P).
  unfold bind at 1. unfold print at 1.
  unfold bind at 1. unfold on_redis at 1. cbn [redis urandom drawn stdout].
  rewrite lrange_all, I.
  unfold bind at 1. unfold on_redis at 1. cbn [redis urandom drawn stdout].
  rewrite lrange_all, O.
  rewrite <- (take_drop_middle _ _ _ Hi) at 1.
  rewrite replay_loop_stops by assumption. cbn [redis urandom drawn stdout].
  unfold header. now rewrite <- app_assoc.
Qed.

(** X11. What [replay] makes of the bytes under the counter key: bytes
    that are not the text of an integer raise [ValueError] before
    anything is printed; a list raises the server's type error; empty
    bytes count as 0. *)
Theorem replay_counter_bytes (method : pyfunc) (w : world) :
  (forall b ex,
      lookup_key (qualname method) (redis w) = Some (Entry (RString b) ex) ->
      b <> "" -> parse_int b = None ->
      replay method w = (Raise ValueError, w)) /\
  (forall l ex,
      lookup_key (qualname method) (redis w) = Some (Entry (RList l) ex) ->
      replay method w = (Raise (ResponseError WRONGTYPE), w)) /\
  (forall ex ins outs,
      lookup_key (qualname method) (redis w) = Some (Entry (RString "") ex) ->
      elements (qualname method +:+ ":inputs") (redis w) = Some ins ->
      elements (qualname method +:+ ":outputs") (redis w) = Some outs ->
      Forall (fun io => utf8_valid io.1 = true /\ utf8_valid io.2 = true)
             (zip ins outs) ->
      replay method w
      = (Ok tt, World (redis w) (urandom w) (drawn w)
                      (stdout w ++ header (qualname method) 0
                                :: map (transcript_line (qualname method))
                                       (zip ins outs)))).
Proof.
  split; [|split].
  - intros b ex L Hb P. unfold replay, bind, on_redis, Redis.get. rewrite L.
    unfold lift, int_or_0, int_of_bytes. rewrite decide_False by assumption.
    rewrite P. now rewrite world_eta.
  - intros l ex L. unfold replay, bind, on_redis, Redis.get. rewrite L.
    now rewrite world_eta.
  - intros ex ins outs L I O V.
    apply (replay_prints method w (Some "") 0 ins outs); try assumption.
    + unfold Redis.get. now rewrite L.
    + reflexivity.
Qed.

(** *** The decorators on any method *)




Section Decorators.
Variable str_repr : string -> string.
Variable float_repr : spec_float -> string.

Abbreviation instrumented m := (call_history str_repr float_repr (count_calls m)).




End Decorators.

(** *** The getters *)

(** X13. [get] with no conversion, [get_str] and [get_int] never write:
    whatever the key holds and whatever they return or raise, the server
    is left as it was; so is it by [get] with any conversion function
    that does not write itself. *)
Theorem getters_read_only (key : string) :
  read_only (get key None) /\ read_only (get_str key) /\ read_only (get_int key) /\
  (forall fn, (forall b, read_only (fn b)) -> read_only (get key (Some fn))).
Proof.
  assert (G : forall fn, (forall b, read_only (fn b)) -> read_only (get key (Some fn))).
  { intros fn Hfn. unfold get.
    apply read_only_bind; [apply read_only_get|].
    intros [b|]; [apply Hfn|apply read_only_ret]. }
  split; [|split; [|split]].
  - unfold get. apply read_only_bind; [apply read_only_get|].
    intros [b|]; apply read_only_ret.
  - apply G. intros b.
    apply read_only_bind; [apply read_only_lift|intros; apply read_only_ret].
  - apply G. intros b.
    apply read_only_bind; [apply read_only_lift|intros; apply read_only_ret].
  - exact G.
Qed.

(** *** The properties on the scenarios *)

Lemma store_get_str_roundtrip_witness :
  exists key w',
    call Scenario.store [] [("data", PyStr "foo")] Scenario.cache = (Ok (PyStr key), w') /\
    get_str key w' = (Ok (PyStr "foo"), w').
Proof.
  apply (store_get_str_roundtrip Scenario.ascii_repr Scenario.decimal_repr
           [] [("data", PyStr "foo")] "foo" Scenario.cache).
  - reflexivity.
  - reflexivity.
  - exact cache_ready.
Defined.

Lemma store_get_int_roundtrip_witness :
  exists key w',
    call Scenario.store [PyInt (-1204)] [] Scenario.cache = (Ok (PyStr key), w') /\
    get_int key w' = (Ok (PyInt (-1204)), w').
Proof.
  apply (store_get_int_roundtrip Scenario.ascii_repr Scenario.decimal_repr
           [PyInt (-1204)] [] (-1204) Scenario.cache).
  - reflexivity.
  - vm_compute. discriminate.
  - exact cache_ready.
Defined.

Lemma store_bytes_get_str_undecodable_witness :
  exists key w',
    call Scenario.store [PyBytes (String (ascii_of_N 0xFF) "")] [] Scenario.cache
    = (Ok (PyStr key), w') /\
    get key None w' = (Ok (PyBytes (String (ascii_of_N 0xFF) "")), w') /\
    get_str key w' = (Raise UnicodeDecodeError, w').
Proof.
  apply (store_bytes_get_str_undecodable Scenario.ascii_repr Scenario.decimal_repr
           [PyBytes (String (ascii_of_N 0xFF) "")] [] (String (ascii_of_N 0xFF) "")
           Scenario.cache).
  - reflexivity.
  - reflexivity.
  - exact cache_ready.
Defined.



Lemma store_leaves_other_keys_witness :
  db (redis (call Scenario.store [PyStr "foo"] [] Scenario.booted).2) !! "leftover"
  = db (redis Scenario.booted) !! "leftover" /\
  now (redis (call Scenario.store [PyStr "foo"] [] Scenario.booted).2)
  = now (redis Scenario.booted).
Proof.
  apply (store_leaves_other_keys Scenario.ascii_repr Scenario.decimal_repr
           [PyStr "foo"] [] Scenario.booted "leftover").
  - vm_compute. discriminate.
  - discriminate.
  - discriminate.
  - discriminate.
Defined.



Lemma replay_after_stores_witness :
  replay Scenario.store Scenario.after_calls
  = (Ok tt,
     World (redis Scenario.after_calls) (urandom Scenario.after_calls)
           (drawn Scenario.after_calls)
           (stdout Scenario.after_calls
            ++ header "Cache.store" (Z.of_nat (length Scenario.calls))
            :: map (transcript_line "Cache.store")
                   (zip (map (fun c => Exercise.tuple_text Scenario.ascii_repr
                                         Scenario.decimal_repr c.1) Scenario.calls)
                        (map (str_text Scenario.ascii_repr Scenario.decimal_repr)
                             Scenario.returned)))).
Proof.
  apply (replay_after_stores Scenario.ascii_repr Scenario.decimal_repr
           Scenario.calls Scenario.booted Scenario.returned Scenario.after_calls).
  - vm_compute. reflexivity.
  - repeat constructor.
Defined.

Lemma replay_stops_at_undecodable_witness :
  replay Scenario.f Scenario.garbled
  = (Raise UnicodeDecodeError,
     World (redis Scenario.garbled) (urandom Scenario.garbled) (drawn Scenario.garbled)
           (stdout Scenario.garbled
            ++ header "f" 3
            :: map (transcript_line "f")
                   (take 1 (zip ["(1,)"; String (ascii_of_N 0xFF) ""; "(3,)"]
                                ["a"; "b"; "c"])))).
Proof.
  apply (replay_stops_at_undecodable Scenario.f Scenario.garbled (Some "3") 3
           ["(1,)"; String (ascii_of_N 0xFF) ""; "(3,)"] ["a"; "b"; "c"] 1
           (String (ascii_of_N 0xFF) "", "b")).
  - vm_compute. reflexivity.
  - vm_compute. reflexivity.
  - vm_compute. reflexivity.
  - vm_compute. reflexivity.
  - reflexivity.
  - repeat constructor.
  - left. reflexivity.
Defined.

Lemma replay_counter_bytes_witness :
  replay Scenario.name Scenario.tampered = (Raise ValueError, Scenario.tampered).
Proof.
  apply (proj1 (replay_counter_bytes Scenario.name Scenario.tampered) "Ada" None).
  - vm_compute. reflexivity.
  - discriminate.
  - reflexivity.
Defined.



End CacheFacts.

(** ** web.py, further properties *)

Module PageFacts.
Import Redis RedisFacts Web WebFacts.

Lemma cache_keys_differ (u u' : string) : u' <> u -> "cache:" +:+ u' <> "cache:" +:+ u.
Proof. intros H E. apply String.app_inj in E. contradiction. Qed.

Lemma count_keys_differ (u u' : string) : u' <> u -> "count:" +:+ u' <> "count:" +:+ u.
Proof. intros H E. apply String.app_inj in E. contradiction. Qed.

Lemma cache_count_keys (u u' : string) : "cache:" +:+ u <> "count:" +:+ u'.
Proof. discriminate. Qed.

Lemma requests_for_snoc url url' s s' rm :
  requests_for url' (World s (rm ++ [url]))
  = (requests_for url' (World s' rm) + if decide (url = url') then 1 else 0)%nat.
Proof.
  unfold requests_for. cbn [requests_made].
  rewrite filter_app, length_app. f_equal.
  rewrite filter_cons, filter_nil. destruct (decide (url = url')); reflexivity.
Qed.

Lemma elapse_elapse d1 d2 w : elapse d2 (elapse d1 w) = elapse (d1 + d2) w.
Proof.
  unfold elapse, Redis.elapse. cbn [r db now aof requests_made].
  do 2 f_equal. lia.
Qed.

Lemma elapse_0 w : elapse 0 w = w.
Proof.
  destruct w as [[d t a] rm]. unfold elapse, Redis.elapse. cbn.
  do 2 f_equal. lia.
Qed.

Section Network.
Variable requests_get : string -> Z -> result response.

Abbreviation get_page := (Web.get_page requests_get).
Abbreviation revisit := (Web.revisit requests_get).
Abbreviation browse := (Web.browse requests_get).

(** X14. A call of [get_page] for one URL leaves the cached page, the
    access counter and the number of requests of every other URL as they
    were, whatever its outcome: cache and counter are kept per exact URL
    string. *)
Theorem get_page_other_urls url url' (w : world) :
  url' <> url ->
  db (r (get_page url w).2) !! ("cache:" +:+ url') = db (r w) !! ("cache:" +:+ url') /\
  db (r (get_page url w).2) !! ("count:" +:+ url') = db (r w) !! ("count:" +:+ url') /\
  requests_for url' (get_page url w).2 = requests_for url' w.
Proof.
  intros Hne.
  destruct (hit_or_miss url w) as [[b Hh] | [Hm | (l & ex & L)]].
  - rewrite (get_page_hit requests_get _ _ _ Hh). auto.
  - rewrite (get_page_miss requests_get _ _ Hm).
    destruct (incr ("count:" +:+ url) (r w)) as [[n|e] s] eqn:Hi.
    + apply incr_Ok in Hi as (_ & _ & _ & (T1 & _ & D1)).
      assert (R : forall s', requests_for url' (World s' (requests_made w ++ [url]))
                             = requests_for url' w).
      { intros s'. rewrite (requests_for_snoc _ _ _ (r w)), web_world_eta.
        rewrite decide_False by congruence. lia. }
      destruct (requests_get url (now s)) as [resp|e]; cbn [snd r].
      * unfold applied; cbn [db].
        rewrite lookup_insert_ne by (apply cache_keys_differ; congruence).
        rewrite lookup_insert_ne by (apply cache_count_keys).
        rewrite !D1; [auto| |].
        -- apply count_keys_differ. assumption.
        -- apply cache_count_keys.
      * rewrite !D1; [auto| |].
        -- apply count_keys_differ. assumption.
        -- apply cache_count_keys.
    + apply incr_Raise in Hi as ->. cbn [snd]. now rewrite web_world_eta.
  - rewrite (get_page_wrongtype requests_get _ _ _ _ L). auto.
Qed.

(** Calls made while the entry lives are all answered from it. *)
Lemma revisit_live url body t (delays : list N) : forall w,
  db (r w) !! ("cache:" +:+ url) = Some (Entry (RString body) (Some t)) ->
  body <> "" -> utf8_valid body = true ->
  now (r w) + Z.of_N (foldr N.add 0%N delays) <= t ->
  revisit url delays w
  = (replicate (length delays) (Ok body), elapse (foldr N.add 0%N delays) w).
Proof.
  induction delays as [|dt rest IH]; intros w D Hb V Ht.
  - cbn. now rewrite elapse_0.
  - cbn [Web.revisit foldr length replicate] in *.
    assert (Hh : hit url (elapse dt w) body).
    { exists (Some t). split; [|assumption].
      unfold lookup_key, elapse, Redis.elapse; cbn [r db now]. rewrite D.
      unfold expired; cbn [expire_at].
      now rewrite (proj2 (Z.ltb_ge _ _)) by lia. }
    rewrite (get_page_hit requests_get _ _ _ Hh). cbv zeta. cbn [fst snd].
    unfold decode_utf8. rewrite V.
    rewrite IH; [|assumption..|].
    + cbn [fst snd]. now rewrite elapse_elapse.
    + unfold elapse, Redis.elapse; cbn [r now]. lia.
Qed.

(** X15. After a call that fetched a page with a body that is not empty,
    any number of further calls for the same URL made within ten seconds
    of the fetch all return that body, and none of them makes a request
    or writes to the server. *)
Theorem revisit_within_window url (w0 : world) body (w1 : world) (delays : list N) :
  get_page url w0 = (Ok body, w1) ->
  requests_made w1 <> requests_made w0 ->
  body <> "" -> utf8_valid body = true ->
  (foldr N.add 0 delays <= 10000)%N ->
  revisit url delays w1
  = (replicate (length delays) (Ok body), elapse (foldr N.add 0%N delays) w1).
Proof.
  intros H Hreq Hb V Hsum.
  apply (get_page_Ok_inv requests_get) in H
    as [(_ & _ & ->) | (_ & _ & T & D & _)]; [congruence|].
  apply (revisit_live url body (now (r w0) + 10000)); try assumption.
  rewrite T. lia.
Qed.

(** *** The access counters over a browsing session *)

Lemma counted_elapse dt w : counted w -> counted (elapse dt w).
Proof. intros H url. apply H. Qed.

Lemma requests_for_le url w : (requests_for url w <= length (requests_made w))%nat.
Proof. unfold requests_for. apply length_filter. Qed.

(** With the counters in step, the increment of a miss is accepted and
    keeps them in step once the request is recorded. *)
Lemma counted_incr url w :
  counted w -> Z.of_nat (length (requests_made w)) < LLONG_MAX ->
  exists n,
    incr ("count:" +:+ url) (r w)
    = (Ok n, applied ("count:" +:+ url)
                     (Entry (RString (ll2string (Z.of_nat (S (requests_for url w))))) None)
                     (INCR ("count:" +:+ url)) (r w)).
Proof.
  intros Hc Hlen. unfold incr, lookup_key. rewrite (Hc url).
  pose proof (requests_for_le url w) as Hle.
  destruct (requests_for url w) as [|k] eqn:E.
  - eauto.
  - unfold expired; cbn [expire_at].
    rewrite string2ll_ll2string by (unfold LLONG_MIN, LLONG_MAX in *; lia).
    rewrite (proj2 (Z.leb_gt _ _)) by lia.
    replace (Z.of_nat (S k) + 1) with (Z.of_nat (S (S k))) by lia. eauto.
Qed.

Lemma counted_get_page url w :
  counted w -> Z.of_nat (length (requests_made w)) < LLONG_MAX ->
  counted (get_page url w).2 /\
  (length (requests_made (get_page url w).2) <= S (length (requests_made w)))%nat.
Proof.
  intros Hc Hlen.
  destruct (hit_or_miss url w) as [[b Hh] | [Hm | (l & ex & L)]].
  - rewrite (get_page_hit requests_get _ _ _ Hh). cbn [snd]. auto.
  - rewrite (get_page_miss requests_get _ _ Hm).
    destruct (counted_incr url w Hc Hlen) as [n ->].
    set (s := applied ("count:" +:+ url) _ _ (r w)).
    assert (Hs : forall url',
               db s !! ("count:" +:+ url') =
               match requests_for url' (World s (requests_made w ++ [url])) with
               | O => None
               | S k => Some (Entry (RString (ll2string (Z.of_nat (S k)))) None)
               end).
    { intros url'. rewrite (requests_for_snoc _ _ _ (r w)), web_world_eta.
      subst s. unfold applied; cbn [db].
      destruct (decide (url = url')) as [<-|Hne].
      - rewrite lookup_insert_eq. now rewrite Nat.add_1_r.
      - rewrite lookup_insert_ne by (apply count_keys_differ; congruence).
        rewrite Nat.add_0_r. apply Hc. }
    assert (Hlen' : forall s', (length (requests_made (World s' (requests_made w ++ [url])))
                                <= S (length (requests_made w)))%nat).
    { intros s'. cbn [requests_made]. rewrite length_app. simpl. lia. }
    destruct (requests_get url (now s)) as [resp|e]; cbn [snd]; (split; [|apply Hlen']).
    + intros url'. unfold applied at 1; cbn [r db].
      rewrite lookup_insert_ne by apply cache_count_keys.
      rewrite (Hs url'). now rewrite !(requests_for_snoc _ _ _ (r w)).
    + intros url'. cbn [r]. apply Hs.
  - rewrite (get_page_wrongtype requests_get _ _ _ _ L). cbn [snd]. auto.
Qed.

Lemma counted_browse steps : forall w,
  counted w ->
  Z.of_nat (length (requests_made w) + length steps) < LLONG_MAX ->
  counted (browse steps w) /\
  (length (requests_made (browse steps w)) <= length (requests_made w) + length steps)%nat.
Proof.
  induction steps as [|[dt url] steps IH]; intros w Hc Hlen.
  - cbn. split; [assumption|lia].
  - cbn [Web.browse fst snd length] in *.
    destruct (counted_get_page url (elapse dt w) (counted_elapse dt w Hc))
      as [Hc1 Hl1].
    { unfold elapse; cbn [requests_made]. lia. }
    unfold elapse in Hl1 at 2. cbn [requests_made] in Hl1.
    destruct (IH _ Hc1) as [Hc2 Hl2]; [lia|].
    split; [assumption|lia].
Qed.

(** X16. Over any browsing session that starts with the counters in step
    (a new server, for one), the access counter of every URL equals the
    number of HTTP requests made for that URL: [get_page] counts requests,
    not calls. *)
Theorem browse_counts_requests steps (w0 : world) :
  counted w0 ->
  Z.of_nat (length (requests_made w0) + length steps) < LLONG_MAX ->
  forall url,
    counter ("count:" +:+ url) (r (browse steps w0))
    = Some (Z.of_nat (requests_for url (browse steps w0))).
Proof.
  intros Hc Hlen url.
  destruct (counted_browse steps w0 Hc Hlen) as [Hc' Hl'].
  unfold counter, lookup_key. rewrite (Hc' url).
  pose proof (requests_for_le url (browse steps w0)) as Hle.
  destruct (requests_for url (browse steps w0)) as [|k]; [reflexivity|].
  unfold expired; cbn [expire_at].
  apply string2ll_ll2string. unfold LLONG_MIN, LLONG_MAX in *. lia.
Qed.

(** *** Expiry *)

Lemma short_lived_elapse dt w : short_lived w -> short_lived (elapse dt w).
Proof.
  intros H url e D. destruct (H url e D) as (t & Ht & Hle).
  exists t. split; [assumption|]. unfold elapse, Redis.elapse; cbn [r now]. lia.
Qed.

Lemma short_lived_get_page url w : short_lived w -> short_lived (get_page url w).2.
Proof.
  intros H.
  destruct (hit_or_miss url w) as [[b Hh] | [Hm | (l & ex & L)]].
  - now rewrite (get_page_hit requests_get _ _ _ Hh).
  - rewrite (get_page_miss requests_get _ _ Hm).
    destruct (incr ("count:" +:+ url) (r w)) as [[n|e] s] eqn:Hi.
    + apply incr_Ok in Hi as (_ & _ & _ & (T1 & _ & D1)).
      assert (Hs : forall url' e, db s !! ("cache:" +:+ url') = Some e ->
                   exists t, expire_at e = Some t /\ t <= now s + 10000).
      { intros url' e D. rewrite D1 in D by apply cache_count_keys.
        rewrite T1. exact (H url' e D). }
      destruct (requests_get url (now s)) as [resp|err]; cbn [snd].
      * intros url' e. unfold applied; cbn [r db now].
        destruct (decide (url = url')) as [<-|Hne].
        -- rewrite lookup_insert_eq. intros [= <-]. cbn [expire_at].
           eexists; split; [reflexivity|lia].
        -- rewrite lookup_insert_ne by (apply cache_keys_differ; congruence).
           apply Hs.
      * intros url' e. cbn [r]. apply Hs.
    + apply incr_Raise in Hi as ->. cbn [snd]. now rewrite web_world_eta.
  - now rewrite (get_page_wrongtype requests_get _ _ _ _ L).
Qed.

(** X17. [get_page] never caches a page without an expiry: over any
    browsing session that starts with no longer-lived entry (a new
    server, for one), every cached page expires within ten seconds, so a
    page answered from the cache was fetched at most ten seconds
    before. *)
Theorem browse_entries_short_lived steps (w0 : world) :
  short_lived w0 -> short_lived (browse steps w0).
Proof.
  revert w0. induction steps as [|[dt url] steps IH]; intros w0 H; [assumption|].
  cbn [Web.browse fst snd]. apply IH. apply short_lived_get_page.
  now apply short_lived_elapse.
Qed.

End Network.

(** *** [cache_page] on any function and expiration *)

(** X18. [cache_page] with an expiration that is not positive caches
    nothing: on a miss the wrapped function runs and returns, then the
    [SETEX] fails and its error replaces the result; the world is as the
    function left it.  The error is the server's "invalid expire time"
    for an expiration that fits in 64 bits, its "not an integer or out
    of range" for one that does not, and the [ValueError] of the client
    library for one of more than 4300 digits, which it cannot write. *)
Theorem cache_page_without_expiration expiration
        (method : string -> M world string) url (w : world) result (w1 : world) :
  expiration <= 0 -> miss url w ->
  method url w = (Ok result, w1) ->
  cache_page expiration method url w
  = (Raise (if decimal_digits expiration <=? max_str_digits
            then ResponseError (if LLONG_MIN <=? expiration
                                then InvalidExpire else NotAnInteger)
            else ValueError), w1).
Proof.
  intros He Hm Hf. unfold cache_page, bind, on_redis, Redis.get.
  destruct Hm as [L | [ex L]]; rewrite L; cbn [r requests_made truthy].
  all: try rewrite decide_True by reflexivity.
  all: rewrite web_world_eta, Hf.
  all: unfold lift, str_int.
  all: destruct (decimal_digits expiration <=? max_str_digits); [|reflexivity].
  all: rewrite setex_not_positive by assumption.
  all: now rewrite web_world_eta.
Qed.

(** X19. [cache_page] with a positive expiration whose deadline fits the
    64-bit clock of the server, on any function: when the function
    returns text that is not empty on a miss, the text is returned and
    cached, and until [expiration] seconds have passed a call for the
    same URL returns it without running the wrapped function, whatever
    that function would do. *)
Theorem cache_page_serves_from_cache expiration
        (method : string -> M world string) url (w : world) result (w1 : world)
        (dt : N) :
  0 < expiration <= LLONG_MAX / 1000 ->
  now (r w1) + 1000 * expiration <= LLONG_MAX ->
  miss url w ->
  method url w = (Ok result, w1) ->
  result <> "" -> utf8_valid result = true ->
  Z.of_N dt <= 1000 * expiration ->
  exists w2,
    cache_page expiration method url w = (Ok result, w2) /\
    requests_made w2 = requests_made w1 /\
    forall method',
      cache_page expiration method' url (elapse dt w2) = (Ok result, elapse dt w2).
Proof.
  intros [He Hfit] Hdeadline Hm Hf Hne V Hdt.
  assert (Hs : str_int expiration = Ok (numeral expiration)).
  { apply PyFacts.str_int_64.
    change (LLONG_MAX / 1000) with 9223372036854775 in Hfit.
    change (2 ^ 63) with 9223372036854775808. lia. }
  destruct (setex_Ok ("cache:" +:+ url) expiration result (r w1) He Hfit)
    as (s2 & E2 & (T2 & _ & _) & L2).
  { pose proof (Z.le_min_l (now (r w1)) (LLONG_MAX / 1000)). unfold mstime. lia. }
  exists (World s2 (requests_made w1)). split; [|split; [reflexivity|]].
  - unfold cache_page, bind, on_redis, Redis.get.
    destruct Hm as [L | [ex L]]; rewrite L; cbn [r requests_made truthy].
    all: try rewrite decide_True by reflexivity.
    all: rewrite web_world_eta, Hf; unfold lift; rewrite Hs, E2; reflexivity.
  - intros method'. unfold cache_page, bind, on_redis, Redis.get.
    apply lookup_db in L2.
    unfold lookup_key at 1. unfold elapse, Redis.elapse. cbn [r db now requests_made].
    rewrite L2. unfold expired; cbn [expire_at].
    rewrite (proj2 (Z.ltb_ge _ _)) by lia.
    cbn [truthy]. rewrite decide_False by assumption.
    unfold lift, decode_utf8. now rewrite V.
Qed.

(** *** The properties on the scenarios *)

Lemma get_page_other_urls_witness :
  db (r (Web.get_page Scenario.network "http://x/gone" Scenario.web_a).2)
     !! "cache:http://x/a"
  = db (r Scenario.web_a) !! "cache:http://x/a" /\
  db (r (Web.get_page Scenario.network "http://x/gone" Scenario.web_a).2)
     !! "count:http://x/a"
  = db (r Scenario.web_a) !! "count:http://x/a" /\
  requests_for "http://x/a" (Web.get_page Scenario.network "http://x/gone" Scenario.web_a).2
  = requests_for "http://x/a" Scenario.web_a.
Proof.
  apply (get_page_other_urls Scenario.network "http://x/gone" "http://x/a" Scenario.web_a).
  discriminate.
Defined.

Lemma revisit_within_window_witness :
  Web.revisit Scenario.network "http://x/a" [1000; 4000; 5000]%N Scenario.web_a
  = (replicate 3 (Ok "<p>0</p>"), elapse 10000 Scenario.web_a).
Proof.
  apply (revisit_within_window Scenario.network "http://x/a" Scenario.web "<p>0</p>"
           Scenario.web_a [1000; 4000; 5000]%N).
  - reflexivity.
  - discriminate.
  - discriminate.
  - reflexivity.
  - discriminate.
Defined.

Lemma web_counted : counted Scenario.web.
Proof. intros url. reflexivity. Defined.

Lemma browse_counts_requests_witness :
  counter "count:http://x/a" (r (Web.browse Scenario.network Scenario.session Scenario.web))
  = Some (Z.of_nat (requests_for "http://x/a"
                      (Web.browse Scenario.network Scenario.session Scenario.web))).
Proof.
  apply (browse_counts_requests Scenario.network Scenario.session Scenario.web).
  - exact web_counted.
  - reflexivity.
Defined.

Lemma web_short_lived : short_lived Scenario.web.
Proof. intros url e D. discriminate D. Defined.

Lemma browse_entries_short_lived_witness :
  exists t,
    expire_at (Entry (RString "<p>12000</p>") (Some 22000)) = Some t /\
    t <= now (r (Web.browse Scenario.network Scenario.session Scenario.web)) + 10000.
Proof.
  apply (browse_entries_short_lived Scenario.network Scenario.session Scenario.web
           web_short_lived "http://x/a").
  vm_compute. reflexivity.
Defined.

Lemma cache_page_without_expiration_witness :
  cache_page 0 (get_page_body Scenario.network) "http://x/a" Scenario.web
  = (Raise (ResponseError InvalidExpire), World (Redis.fresh 0) ["http://x/a"]).
Proof.
  apply (cache_page_without_expiration 0 (get_page_body Scenario.network)
           "http://x/a" Scenario.web "<p>0</p>").
  - discriminate.
  - left. reflexivity.
  - reflexivity.
Defined.

Lemma cache_page_serves_from_cache_witness :
  exists w2,
    cache_page 60 (get_page_body Scenario.network) "http://x/a" Scenario.web
    = (Ok "<p>0</p>", w2) /\
    requests_made w2 = ["http://x/a"] /\
    forall method',
      cache_page 60 method' "http://x/a" (elapse 60000 w2)
      = (Ok "<p>0</p>", elapse 60000 w2).
Proof.
  apply (cache_page_serves_from_cache 60 (get_page_body Scenario.network)
           "http://x/a" Scenario.web "<p>0</p>"
           (World (Redis.fresh 0) ["http://x/a"]) 60000%N).
  - split; [reflexivity|vm_compute; discriminate].
  - vm_compute. discriminate.
  - left. reflexivity.
  - reflexivity.
  - discriminate.
  - reflexivity.
  - discriminate.
Defined.

End PageFacts.
